(** * assess-category.py: candidates for reassessment in a category

    A shallow embedding of [src/assess-category.py] (classes [Prediction]
    and [Predictor], and [main]) and the properties of its prediction
    retrieval, candidate filter, ranking and report.

    Conventions of the embedding.
    - The language is Python 3: a [dict] keeps insertion order, an
      exception cannot be indexed, an [int] does not compare with a [str].
    - Python values are taken at the types of the source's docstrings: a
      rating is a [str], the per-class probabilities a [dict] from class
      name to [float], a distance an [int].
    - A Python [dict] is an association list in insertion order (the
      iteration order of [dict.items()]); keys are strings.
    - A Python [float] is a binary64 [float] of the kernel, so sums,
      products and comparisons are the ones Python computes.
    - The database and the scoring service are inputs: a [database] gives
      the rows each query returns, an [ores_service] the response to each
      request.  Every request is given a response: an exception of the
      transport, which the source lets through ([http_session.get] is
      outside its [try]), is not an outcome of this model.  Calls to
      [logging] change neither data nor control flow and are left out.
    - [Prediction] objects live in a store keyed by revision id; the
      candidate map refers to them by that key, as the Python dictionaries
      share the objects. *)

From Stdlib Require Import ZArith List String Ascii Bool Floats Lia.
From Stdlib Require Import DecimalString DecimalPos DecimalZ Permutation Sorted.
Import ListNotations.

Set Warnings "-inexact-float".
#[local] Open Scope string_scope.
#[local] Open Scope Z_scope.

(** ** Python runtime: exceptions, outcomes, dictionaries, strings *)

(** The exceptions the modelled code can raise. *)
Inductive exn : Type :=
| KeyError
| ValueError
| IndexError
| AttributeError
| TypeError.

(** What a call does: it returns a value, raises, or (for a loop run on
    fuel) has not finished when the fuel is spent. *)
Inductive outcome (A : Type) : Type :=
| Returns (a : A)
| Raises (e : exn)
| OutOfFuel.

Arguments Returns {A} a.
Arguments Raises {A} e.
Arguments OutOfFuel {A}.

Definition bind {A B : Type} (m : outcome A) (k : A -> outcome B) : outcome B :=
  match m with
  | Returns a => k a
  | Raises e => Raises e
  | OutOfFuel => OutOfFuel
  end.

Notation "x <- m ;; k" := (bind m (fun x => k))
  (at level 61, m at next level, right associativity).

(** [d[k]] for a dictionary lookup that may fail. *)
Definition getitem {A : Type} (o : option A) : outcome A :=
  match o with
  | Some a => Returns a
  | None => Raises KeyError
  end.

Section Dict.
Context {V : Type}.

Definition dict : Type := list (string * V).

(** [d.get(k)] *)
Fixpoint dict_get (k : string) (d : dict) : option V :=
  match d with
  | [] => None
  | (k', v) :: d' => if String.eqb k k' then Some v else dict_get k d'
  end.

(** [d[k] = v]: an existing key keeps its position. *)
Fixpoint dict_set (k : string) (v : V) (d : dict) : dict :=
  match d with
  | [] => [(k, v)]
  | (k', v') :: d' =>
      if String.eqb k k' then (k', v) :: d' else (k', v') :: dict_set k v d'
  end.

(** [del d[k]], used by the source only on keys that are present. *)
Fixpoint dict_del (k : string) (d : dict) : dict :=
  match d with
  | [] => []
  | (k', v') :: d' =>
      if String.eqb k k' then d' else (k', v') :: dict_del k d'
  end.

Definition keys (d : dict) : list string := map fst d.
Definition values (d : dict) : list V := map snd d.
Definition items (d : dict) : list (string * V) := d.
End Dict.

Arguments dict V : clear implicits.

(** [s.replace(a, b)] for one-character [a] and [b]. *)
Fixpoint replace (a b : ascii) (s : string) : string :=
  match s with
  | EmptyString => EmptyString
  | String c s' => String (if Ascii.eqb c a then b else c) (replace a b s')
  end.

(** [str(n)] for an integer. *)
Definition str (n : Z) : string := NilZero.string_of_int (Z.to_int n).

Definition nl : string := String (ascii_of_nat 10) EmptyString.

(** ** [format(x, '.1f')] for a float

    The decimal with one digit after the point nearest to the exact value
    of [x], ties going to the even digit. *)

Definition round_half_even (num den : Z) : Z :=
  let q := num / den in
  let r := num mod den in
  match 2 * r ?= den with
  | Lt => q
  | Gt => q + 1
  | Eq => if Z.even q then q else q + 1
  end.

(** The number of tenths in [m * 2^e], rounded. *)
Definition tenths (m : positive) (e : Z) : Z :=
  if 0 <=? e then Zpos m * 2 ^ e * 10
  else round_half_even (Zpos m * 10) (2 ^ (- e)).

Definition sign_str (s : bool) : string := if s then "-" else "".

Definition format_1f (x : float) : string :=
  match Prim2SF x with
  | S754_nan => "nan"
  | S754_infinity s => sign_str s ++ "inf"
  | S754_zero s => sign_str s ++ "0.0"
  | S754_finite s m e =>
      let t := tenths m e in
      sign_str s ++ str (t / 10) ++ "." ++ str (t mod 10)
  end.

(** ** class Prediction *)

Record Prediction : Type := mkPrediction {
  rev_id : string;
  rating : string;
  probs : dict float;
  p_above_target : float
}.

(** [Prediction(revision_id, rating, probs)] *)
Definition Prediction_init (revision_id rating : string) (probs : dict float)
  : Prediction :=
  mkPrediction revision_id rating probs 0.0%float.

Definition set_p_above_target (p : Prediction) (x : float) : Prediction :=
  mkPrediction (rev_id p) (rating p) (probs p) x.

(** ** class Predictor: configuration of [__init__] *)

Definition wp10 : list string := ["FA"; "GA"; "B"; "C"; "Start"; "Stub"].
Definition iter_size : nat := 50.
Definition max_url_attempts : nat := 3.
Definition lang : string := "en".

(** ** The environment: database and scoring service *)

Record database : Type := {
  (** whether [MySQLdb.connect] succeeds *)
  reachable : bool;
  (** rows of [member_query] for a category: the [page_title] column *)
  member_rows : string -> list string;
  (** rows of [latest_query] for a title: the [page_latest] column *)
  latest_rows : string -> list Z
}.

(** [db_connect].  When [MySQLdb.connect] succeeds, [self.db_conn] is set
    and the method returns [True].  When it raises [MySQLdb.Error], the
    handler formats [e[0]] and [e[1]] for the log; an exception cannot be
    indexed, so the handler raises [TypeError], which leaves the method:
    [return(False)] is not reached. *)
Definition db_connect (db : database) : outcome bool :=
  if reachable db then Returns true else Raises TypeError.

(** One revision's entry of a response: the keys ['prediction'] and
    ['probability'], each present or not. *)
Record score_data : Type := {
  sd_prediction : option string;
  sd_probability : option (dict float)
}.

(** The decoded body: [response['scores'][langcode]['wp10']['scores']] is a
    dictionary from revision id to [score_data]; any key on the way may be
    missing.  Values have the types of the service's schema: a body of
    another shape, on which the source would raise a [TypeError] that it
    does not catch, is not an input of this model. *)
Definition response_json : Type :=
  dict (dict (dict (dict (dict score_data)))).

Record http_response : Type := {
  status_code : Z;
  (** [r.json()]; [None] when it raises [ValueError] *)
  json : option response_json
}.

(** The service: the response to the [n]-th request of the session, made
    for the given revision ids. *)
Definition ores_service : Type := nat -> list string -> http_response.

(** What the session does that can be observed from outside. *)
Inductive event : Type :=
| Get (revids : list string)
| Sleep (milliseconds : Z).

(** ** Predictor.get_predictions *)

Record session : Type := mkSession {
  predictions : dict Prediction;
  requests : nat;
  trace : list event
}.

(** The [for revid, score_data in revid_pred_map.items()] loop.  It writes
    into [predictions] as it goes, so what it stored before a [KeyError]
    stays. *)
Fixpoint store_scores (its : list (string * score_data))
    (preds : dict Prediction) : dict Prediction * option exn :=
  match its with
  | [] => (preds, None)
  | (revid, sd) :: rest =>
      match sd_prediction sd with
      | None => (preds, Some KeyError)
      | Some r =>
          match sd_probability sd with
          | None => (preds, Some KeyError)
          | Some p => store_scores rest (dict_set revid (Prediction_init revid r p) preds)
          end
      end
  end.

(** The body of the [try]. *)
Definition parse_response (langcode : string) (r : http_response)
    (preds : dict Prediction) : dict Prediction * option exn :=
  match json r with
  | None => (preds, Some ValueError)
  | Some response =>
      match dict_get "scores" response with
      | None => (preds, Some KeyError)
      | Some by_wiki =>
          match dict_get langcode by_wiki with
          | None => (preds, Some KeyError)
          | Some by_model =>
              match dict_get "wp10" by_model with
              | None => (preds, Some KeyError)
              | Some model =>
                  match dict_get "scores" model with
                  | None => (preds, Some KeyError)
                  | Some revid_pred_map =>
                      store_scores (items revid_pred_map) preds
                  end
              end
          end
      end
  end.

(** The [while num_attempts < self.max_url_attempts] loop, on the number of
    attempts that remain. *)
Fixpoint attempts (ores : ores_service) (langcode : string)
    (remaining : nat) (subset : list string) (s : session) : session :=
  match remaining with
  | O => s
  | S remaining' =>
      let r := ores (requests s) subset in
      let s1 := mkSession (predictions s) (S (requests s)) (trace s ++ [Get subset]) in
      if status_code r =? 200 then
        match parse_response langcode r (predictions s1) with
        | (preds, None) =>
            (* break *)
            mkSession preds (requests s1) (trace s1)
        | (preds, Some _) =>
            (* except ValueError / except KeyError, then time.sleep(0.5) *)
            attempts ores langcode remaining' subset
              (mkSession preds (requests s1) (trace s1 ++ [Sleep 500]))
        end
      else attempts ores langcode remaining' subset s1
  end.

(** The [while i < len(rev_ids)] loop. *)
Fixpoint batches (ores : ores_service) (langcode : string) (fuel : nat)
    (rev_ids : list string) (i : nat) (s : session) : outcome session :=
  if (i <? List.length rev_ids)%nat then
    match fuel with
    | O => OutOfFuel
    | S fuel' =>
        let subset := firstn iter_size (skipn i rev_ids) in
        batches ores langcode fuel' rev_ids (i + iter_size)%nat
          (attempts ores langcode max_url_attempts subset s)
    end
  else Returns s.

Definition get_predictions (ores : ores_service) (rev_ids : list string)
  : outcome session :=
  let langcode := lang ++ "wiki" in
  batches ores langcode (List.length rev_ids) rev_ids 0%nat (mkSession [] 0%nat []).

(** ** Predictor.predict *)

(** The [while not done] loop over the rows of [member_query]:
    [art_rev_map[page_title] = -1]. *)
Definition member_loop (rows : list string) : dict Z :=
  fold_left (fun art_rev_map page_title => dict_set page_title (-1) art_rev_map)
            rows [].

(** [for page_title in art_rev_map.keys()], and in it [for row in fetchall()]:
    [art_rev_map[page_title] = str(row['page_latest'])].  The map holds the
    number; [str] is applied where the value is used as a revision id, and
    [int(rev_id)] in the source is its inverse. *)
Definition latest_loop (db : database) (art_rev_map : dict Z) : dict Z :=
  fold_left
    (fun m page_title =>
       fold_left (fun m page_latest => dict_set page_title page_latest m)
                 (latest_rows db page_title) m)
    (keys art_rev_map) art_rev_map.

(** The titles flagged in [del_list]: [int(rev_id) <= 0]. *)
Definition del_list (art_rev_map : dict Z) : list string :=
  map fst (filter (fun it => snd it <=? 0) (items art_rev_map)).

(** [for page_title in del_list: del(art_rev_map[page_title])] *)
Definition del_loop (titles : list string) (art_rev_map : dict Z) : dict Z :=
  fold_left (fun m page_title => dict_del page_title m) titles art_rev_map.

(** [art_rev_map] as it stands when [get_predictions] is called. *)
Definition resolve_revisions (db : database) (category_name : string) : dict Z :=
  let rows := member_rows db (replace " " "_" category_name) in
  let art_rev_map := latest_loop db (member_loop rows) in
  del_loop (del_list art_rev_map) art_rev_map.

(** The value [latest_loop] leaves for a member: the last row of its
    [latest_query], or the initial -1. *)
Definition latest_of (db : database) (title : string) : Z :=
  last (latest_rows db title) (-1).

Definition enumerate {A : Type} (l : list A) : list (Z * A) :=
  combine (map Z.of_nat (seq 0 (List.length l))) l.

(** [{ rating: idx for idx, rating in enumerate(self.wp10) }] *)
Definition wp10_map : dict Z :=
  fold_left (fun m ir => dict_set (snd ir) (fst ir) m) (enumerate wp10) [].

(** [for i in range(0, target_idx)]:
    [rev_pred.p_above_target += rev_pred.probs[self.wp10[i]]] *)
Fixpoint above_loop (range : list nat) (rev_pred : Prediction)
  : outcome Prediction :=
  match range with
  | [] => Returns rev_pred
  | i :: range' =>
      match nth_error wp10 i with
      | None => Raises IndexError
      | Some class =>
          p <- getitem (dict_get class (probs rev_pred)) ;;
          above_loop range'
            (set_p_above_target rev_pred (p_above_target rev_pred + p)%float)
      end
  end.

(** What [predict] returns: the empty tuple of [return()], or the candidate
    map.  The map's values are the [Prediction] objects of [rev_pred_map];
    here each is the key of the object in the store returned with it. *)
Inductive candidates : Type :=
| EmptyTuple
| CandidateMap (candidate_map : dict string) (store : dict Prediction).

(** [for page_title, rev_id in art_rev_map.items()] *)
Fixpoint candidate_loop (target_idx distance : Z) (pairs : list (string * Z))
    (rev_pred_map : dict Prediction) (candidate_map : dict string)
  : outcome candidates :=
  match pairs with
  | [] => Returns (CandidateMap candidate_map rev_pred_map)
  | (page_title, rev_id) :: pairs' =>
      match dict_get (str rev_id) rev_pred_map with
      | None =>
          (* except KeyError: continue *)
          candidate_loop target_idx distance pairs' rev_pred_map candidate_map
      | Some rev_pred =>
          idx <- getitem (dict_get (rating rev_pred) wp10_map) ;;
          if target_idx - idx >=? distance then
            rev_pred' <- above_loop (seq 0 (Z.to_nat target_idx)) rev_pred ;;
            candidate_loop target_idx distance pairs'
              (dict_set (str rev_id) rev_pred' rev_pred_map)
              (dict_set page_title (str rev_id) candidate_map)
          else
            candidate_loop target_idx distance pairs' rev_pred_map candidate_map
      end
  end.

Definition predict (db : database) (ores : ores_service)
    (category_name target : string) (distance : Z) : outcome candidates :=
  connected <- db_connect db ;;
  if negb connected then Returns EmptyTuple
  else
    let art_rev_map := resolve_revisions db category_name in
    s <- get_predictions ores (map str (values art_rev_map)) ;;
    let rev_pred_map := predictions s in
    target_idx <- getitem (dict_get target wp10_map) ;;
    candidate_loop target_idx distance (items art_rev_map) rev_pred_map [].

(** *** Vocabulary for the properties of [predict] *)

(** [acc + ps[c1] + ... + ps[cn]], added from left to right as Python's
    [+=] does; [None] when a class has no probability. *)
Fixpoint sum_probs (acc : float) (classes : list string) (ps : dict float)
  : option float :=
  match classes with
  | [] => Some acc
  | c :: classes' =>
      match dict_get c ps with
      | Some x => sum_probs (acc + x)%float classes' ps
      | None => None
      end
  end.

(** The sum over the classes with indices 0 to [target_idx - 1]. *)
Definition probability_above (target_idx : Z) (ps : dict float) : option float :=
  sum_probs 0.0%float (firstn (Z.to_nat target_idx) wp10) ps.

(** The distance filter of the candidate loop. *)
Definition passes (target_idx distance : Z) (p : Prediction) : bool :=
  match dict_get (rating p) wp10_map with
  | Some idx => target_idx - idx >=? distance
  | None => false
  end.

Definition has_key {V : Type} (d : dict V) (k : string) : bool :=
  match dict_get k d with Some _ => true | None => false end.

(** A prediction as the service documents it: the rating is one of the six
    classes and every class has a probability. *)
Definition well_formed (p : Prediction) : bool :=
  has_key wp10_map (rating p) && forallb (has_key (probs p)) wp10.

Definition all_well_formed (store : dict Prediction) : bool :=
  forallb (fun it => well_formed (snd it)) store.

(** Two states of one [Prediction] object that differ at most in
    [p_above_target]. *)
Definition same_fields (p p' : Prediction) : Prop :=
  rev_id p' = rev_id p /\ rating p' = rating p /\ probs p' = probs p.

(** A revision belongs to one page: no two titles have the same positive
    [page_latest]. *)
Definition one_page_per_revision (db : database) : Prop :=
  forall title title',
    0 < latest_of db title ->
    latest_of db title' = latest_of db title ->
    title' = title.

(** The revision ids [predict] asks predictions for. *)
Definition requested (db : database) (category_name : string) : list string :=
  map str (values (resolve_revisions db category_name)).

(** An attempt fails before anything is stored when the status is not 200,
    the body does not decode, or one of the keys on the way to the scores
    is missing. *)
Definition attempt_failed (langcode : string) (r : http_response) : bool :=
  negb (status_code r =? 200)
  || match json r with
     | None => true
     | Some response =>
         match dict_get "scores" response with
         | None => true
         | Some by_wiki =>
             match dict_get langcode by_wiki with
             | None => true
             | Some by_model =>
                 match dict_get "wp10" by_model with
                 | None => true
                 | Some model => negb (has_key model "scores")
                 end
             end
         end
     end.

Definition is_get (e : event) : bool :=
  match e with Get _ => true | Sleep _ => false end.

(** A pair of [art_rev_map] that the candidate loop takes: its revision
    has a prediction, and the prediction passes the filter. *)
Definition selected (target_idx distance : Z) (store : dict Prediction)
    (it : string * Z) : bool :=
  match dict_get (str (snd it)) store with
  | Some p => passes target_idx distance p
  | None => false
  end.

(** A prediction on which the loop body raises nothing: the rating is a
    key of [wp10_map] and, if the prediction passes the filter, every class
    before the target has a probability. *)
Definition usable (target_idx distance : Z) (p : Prediction) : bool :=
  match dict_get (rating p) wp10_map with
  | None => false
  | Some idx =>
      if target_idx - idx >=? distance
      then forallb (has_key (probs p)) (firstn (Z.to_nat target_idx) wp10)
      else true
  end.

Definition all_usable (target_idx distance : Z) (store : dict Prediction)
    (pairs : list (string * Z)) : bool :=
  forallb (fun it => match dict_get (str (snd it)) store with
                     | Some p => usable target_idx distance p
                     | None => true
                     end) pairs.

(** [n] passes of the loop that adds the probabilities of [classes]. *)
Fixpoint add_sums (n : nat) (acc : float) (classes : list string)
    (ps : dict float) : option float :=
  match n with
  | O => Some acc
  | S n' =>
      match sum_probs acc classes ps with
      | Some x => add_sums n' x classes ps
      | None => None
      end
  end.

(** *** Vocabulary for the properties of [get_predictions] *)

Definition is_sleep (e : event) : bool :=
  match e with Sleep _ => true | Get _ => false end.

(** [response['scores'][langcode]['wp10']['scores']], when the body decodes
    and has these keys. *)
Definition scores_of (langcode : string) (r : http_response)
  : option (dict score_data) :=
  match json r with
  | None => None
  | Some response =>
      match dict_get "scores" response with
      | None => None
      | Some by_wiki =>
          match dict_get langcode by_wiki with
          | None => None
          | Some by_model =>
              match dict_get "wp10" by_model with
              | None => None
              | Some model => dict_get "scores" model
              end
          end
      end
  end.

(** The [Prediction] built from an entry that has both of its keys. *)
Definition entry_prediction (revid : string) (sd : score_data) : option Prediction :=
  match sd_prediction sd, sd_probability sd with
  | Some r, Some p => Some (Prediction_init revid r p)
  | _, _ => None
  end.

Definition complete (it : string * score_data) : bool :=
  match entry_prediction (fst it) (snd it) with Some _ => true | None => false end.

(** [rev_ids[k * iter_size : (k + 1) * iter_size]] *)
Definition batch (rev_ids : list string) (k : nat) : list string :=
  firstn iter_size (skipn (k * iter_size) rev_ids).

(** The number of batches [rev_ids] is cut into. *)
Definition n_batches (rev_ids : list string) : nat :=
  (List.length rev_ids + (iter_size - 1)) / iter_size.

(** The requests of the session are the [Get]s of its trace, and every
    prediction of the session was built from an entry of the response, with
    status 200, to one of them: the [n]-th request was made for [subset]
    and the service answered it with [ores n subset]. *)
Definition received (ores : ores_service) (langcode : string) (s : session)
  : Prop :=
  List.length (filter is_get (trace s)) = requests s
  /\ forall r p,
      dict_get r (predictions s) = Some p ->
      exists n subset revid_pred_map sd,
        nth_error (filter is_get (trace s)) n = Some (Get subset)
        /\ status_code (ores n subset) = 200
        /\ scores_of langcode (ores n subset) = Some revid_pred_map
        /\ In (r, sd) revid_pred_map
        /\ entry_prediction r sd = Some p.

(** A response with status 200 whose scores all have a prediction and
    probabilities. *)
Definition answers (langcode : string) (r : http_response) : bool :=
  (status_code r =? 200)
  && match scores_of langcode r with
     | Some revid_pred_map => forallb complete revid_pred_map
     | None => false
     end.

Definition gets (s : session) : nat := List.length (filter is_get (trace s)).
Definition sleeps (s : session) : nat := List.length (filter is_sleep (trace s)).

(** ** Predictor.build_table *)

Section SortedReverse.
Context {A : Type} (key : A -> float).

(** [sorted(l, key=key, reverse=True)].  Python's sort is stable, also
    when reversed, and compares keys with [<] only.  Where [<] orders the
    keys (none is nan) there is one stable arrangement, which this
    insertion computes. *)
Fixpoint insert_reverse (x : A) (l : list A) : list A :=
  match l with
  | [] => [x]
  | y :: l' =>
      if (key x <? key y)%float then y :: insert_reverse x l' else x :: l
  end.

Definition sorted_reverse (l : list A) : list A :=
  fold_right insert_reverse [] l.

(** Non-increasing keys: [b], which comes later, has a key [<=] that of
    [a]. *)
Definition not_before (a b : A) : Prop := (key b <=? key a)%float = true.
End SortedReverse.

(** [candidates.items()]: titles with the objects they refer to. *)
Definition candidate_items (candidate_map : dict string)
    (store : dict Prediction) : list (string * Prediction) :=
  flat_map
    (fun it => match dict_get (snd it) store with
               | Some pred => [(fst it, pred)]
               | None => []
               end)
    (items candidate_map).

Definition table_start (target : string) : string :=
  "{|" ++ nl ++ "!  Title" ++ nl ++ "!  Predicted class" ++ nl
       ++ "!  P(> " ++ target ++ ")".

Definition table_end : string := nl ++ "|}".

(** One pass of the [for (page_title, pred) in sorted_candidates] loop. *)
Definition table_row (content : string) (it : string * Prediction) : string :=
  content ++ nl ++ "|-" ++ nl ++ "| [[" ++ replace "_" " " (fst it) ++ "]] || "
          ++ rating (snd it) ++ " || "
          ++ format_1f (100 * p_above_target (snd it))%float.

Definition sorted_candidates (candidate_map : dict string)
    (store : dict Prediction) : list (string * Prediction) :=
  sorted_reverse (fun pred => p_above_target (snd pred))
                 (candidate_items candidate_map store).

(** The rows for a sequence of candidates, one after the other. *)
Definition table_rows (l : list (string * Prediction)) : string :=
  fold_right (fun it rest => table_row "" it ++ rest) "" l.

Definition build_table (cands : candidates) (target : string) : outcome string :=
  match cands with
  | EmptyTuple =>
      (* a tuple has no [items] *)
      Raises AttributeError
  | CandidateMap candidate_map store =>
      let table_content :=
        fold_left table_row (sorted_candidates candidate_map store) "" in
      Returns (table_start target ++ table_content ++ table_end)
  end.

(** ** main

    [main] with the distance an integer, as it is when the command line has
    no [--distance] and argparse gives the default 2.  (The option itself
    is declared with [type=str]; the call of [predict] with a [str] is not
    modelled.)  The value returned is the text printed. *)
Definition main (db : database) (ores : ores_service)
    (category target : string) (distance : Z) : outcome string :=
  cands <- predict db ores category target distance ;;
  build_table cands target.

(** ** The end-to-end scenario

    A category with the titles A, B and C; A resolves to revision 101, B to
    102, C to nothing.  The service scores 101 as Stub and 102 as FA. *)

Definition scenario_db : database := {|
  reachable := true;
  member_rows := fun category =>
    if String.eqb category "Some_category" then ["A"; "B"; "C"] else [];
  latest_rows := fun title =>
    if String.eqb title "A" then [101]
    else if String.eqb title "B" then [102] else []
|}.

Definition probs_101 : dict float :=
  [("FA", 0.01); ("GA", 0.02); ("B", 0.05);
   ("C", 0.12); ("Start", 0.3); ("Stub", 0.5)]%float.

(** Revision 102 has 0.9 for FA; the scenario leaves the rest open. *)
Definition probs_102 (ga b c start stub : float) : dict float :=
  [("FA", 0.9%float); ("GA", ga); ("B", b);
   ("C", c); ("Start", start); ("Stub", stub)].

Definition scenario_body (p102 : dict float) : response_json :=
  [("scores", [("enwiki", [("wp10", [("scores",
     [("101", {| sd_prediction := Some "Stub"; sd_probability := Some probs_101 |});
      ("102", {| sd_prediction := Some "FA"; sd_probability := Some p102 |})])])])])].

Definition scenario_ores (p102 : dict float) : ores_service :=
  fun _ _ => {| status_code := 200; json := Some (scenario_body p102) |}.

(** One way to fill in revision 102. *)
Definition scenario_probs_102 : dict float :=
  probs_102 0.05 0.02 0.01 0.01 0.01.

(** The service of the scenario when it has not scored revision 102. *)
Definition unscored_ores : ores_service :=
  fun _ _ =>
    {| status_code := 200;
       json := Some
         [("scores", [("enwiki", [("wp10", [("scores",
            [("101", {| sd_prediction := Some "Stub";
                        sd_probability := Some probs_101 |})])])])])] |}.

(** The database of the scenario when it cannot be reached. *)
Definition unreachable_db : database := {|
  reachable := false;
  member_rows := member_rows scenario_db;
  latest_rows := latest_rows scenario_db
|}.

(** Three candidates, two of them with the same [p_above_target]. *)
Definition tied_store : dict Prediction :=
  [("11", mkPrediction "11" "B" [] 0.25%float);
   ("12", mkPrediction "12" "GA" [] 0.5%float);
   ("13", mkPrediction "13" "FA" [] 0.25%float)].

Definition tied_candidates : dict string :=
  [("First_title", "11"); ("Second_title", "12"); ("Third_title", "13")].

(** A service whose answer has an entry without a prediction between two
    that are complete. *)
Definition incomplete_ores : ores_service :=
  fun _ _ =>
    {| status_code := 200;
       json := Some
         [("scores", [("enwiki", [("wp10", [("scores",
            [("101", {| sd_prediction := Some "Stub";
                        sd_probability := Some probs_101 |});
             ("102", {| sd_prediction := None;
                        sd_probability := Some scenario_probs_102 |});
             ("103", {| sd_prediction := Some "FA";
                        sd_probability := Some scenario_probs_102 |})])])])])] |}.

(** A service that rates revision 101 with a name that is not of the
    scale. *)
Definition unrated_ores : ores_service :=
  fun _ _ =>
    {| status_code := 200;
       json := Some
         [("scores", [("enwiki", [("wp10", [("scores",
            [("101", {| sd_prediction := Some "A";
                        sd_probability := Some probs_101 |})])])])])] |}.

(** A database in which two titles have the same latest revision. *)
Definition shared_db : database := {|
  reachable := true;
  member_rows := fun _ => ["A"; "A2"];
  latest_rows := fun _ => [101]
|}.

(** The database of the scenario with one more category. *)
Definition larger_db : database := {|
  reachable := true;
  member_rows := fun category =>
    if String.eqb category "Some_category" then ["A"; "B"; "C"] else ["Z"];
  latest_rows := fun title =>
    if String.eqb title "Z" then [7] else latest_rows scenario_db title
|}.

(** A service that answers every request with the given status and no
    usable body. *)
Definition failing_ores (status : Z) : ores_service :=
  fun _ _ => {| status_code := status; json := None |}.

(** * Properties *)

(** ** Dictionaries *)

Section DictFacts.
Context {V : Type}.
Implicit Types (d : dict V) (k : string) (v : V).

Lemma dict_get_set_same k v d : dict_get k (dict_set k v d) = Some v.
Proof.
  induction d as [|[k' v'] d IH]; simpl.
  - now rewrite String.eqb_refl.
  - destruct (String.eqb k k') eqn:E; simpl; rewrite E; auto.
Qed.

Lemma dict_get_set_other k k' v d :
  k <> k' -> dict_get k' (dict_set k v d) = dict_get k' d.
Proof.
  intros Hne. induction d as [|[k0 v0] d IH]; simpl.
  - destruct (String.eqb k' k) eqn:E; auto.
    apply String.eqb_eq in E. congruence.
  - destruct (String.eqb k k0) eqn:E; simpl.
    + apply String.eqb_eq in E. subst k0.
      destruct (String.eqb k' k) eqn:E'; auto.
      apply String.eqb_eq in E'. congruence.
    + now rewrite IH.
Qed.

Lemma dict_get_set k k' v d :
  dict_get k' (dict_set k v d) = if String.eqb k k' then Some v else dict_get k' d.
Proof.
  destruct (String.eqb k k') eqn:E.
  - apply String.eqb_eq in E. subst. apply dict_get_set_same.
  - apply String.eqb_neq in E. now apply dict_get_set_other.
Qed.

Lemma dict_get_In k v d : dict_get k d = Some v -> In (k, v) d.
Proof.
  induction d as [|[k' v'] d IH]; simpl; [discriminate|].
  destruct (String.eqb k k') eqn:E; intros H.
  - apply String.eqb_eq in E. left. congruence.
  - right. auto.
Qed.

Lemma dict_get_None k d : dict_get k d = None <-> ~ In k (keys d).
Proof.
  induction d as [|[k' v'] d IH]; simpl; [tauto|].
  destruct (String.eqb k k') eqn:E.
  - apply String.eqb_eq in E. subst. split; [discriminate|tauto].
  - apply String.eqb_neq in E. rewrite IH. split; intuition congruence.
Qed.

Lemma dict_get_Some_keys k v d : dict_get k d = Some v -> In k (keys d).
Proof.
  intros H. apply dict_get_In in H. now apply (in_map fst) in H.
Qed.

Lemma In_dict_get k v d : NoDup (keys d) -> In (k, v) d -> dict_get k d = Some v.
Proof.
  induction d as [|[k' v'] d IH]; simpl; [tauto|].
  intros Hnd [Heq|Hin]; inversion Hnd as [|? ? Hk Hnd']; subst.
  - inversion Heq; subst. now rewrite String.eqb_refl.
  - destruct (String.eqb k k') eqn:E; auto.
    apply String.eqb_eq in E. subst.
    exfalso. apply Hk. now apply (in_map fst) in Hin.
Qed.

Lemma In_keys_dict_set k k' v d :
  In k' (keys (dict_set k v d)) <-> k' = k \/ In k' (keys d).
Proof.
  induction d as [|[k0 v0] d IH]; simpl.
  - intuition congruence.
  - destruct (String.eqb k k0) eqn:E; simpl.
    + apply String.eqb_eq in E. subst. intuition congruence.
    + rewrite IH. tauto.
Qed.

Lemma NoDup_keys_dict_set k v d : NoDup (keys d) -> NoDup (keys (dict_set k v d)).
Proof.
  induction d as [|[k0 v0] d IH]; simpl; intros Hnd.
  - constructor; [simpl; tauto | constructor].
  - inversion Hnd as [|? ? Hk Hnd']; subst.
    destruct (String.eqb k k0) eqn:E; simpl.
    + now constructor.
    + constructor; auto.
      rewrite In_keys_dict_set. apply String.eqb_neq in E.
      intuition congruence.
Qed.

Lemma keys_dict_set_present k v v0 d :
  dict_get k d = Some v0 -> keys (dict_set k v d) = keys d.
Proof.
  induction d as [|[k' v'] d IH]; simpl; [discriminate|].
  destruct (String.eqb k k') eqn:E; simpl; intros H; auto.
  now rewrite IH.
Qed.

Lemma dict_del_head_other k k' v d :
  k <> k' -> dict_del k ((k', v) :: d) = (k', v) :: dict_del k d.
Proof.
  intros Hne. simpl. destruct (String.eqb k k') eqn:E; auto.
  apply String.eqb_eq in E. congruence.
Qed.

End DictFacts.

(** ** Resolving the members of a category *)

Lemma member_loop_keys rows (m : dict Z) :
  NoDup (keys m) ->
  NoDup (keys (fold_left (fun a t => dict_set t (-1) a) rows m)).
Proof.
  revert m. induction rows as [|t rows IH]; simpl; intros m H; auto.
  apply IH. now apply NoDup_keys_dict_set.
Qed.

Lemma member_loop_get rows m title :
  dict_get title (fold_left (fun a t => dict_set t (-1) a) rows m)
  = if in_dec string_dec title rows then Some (-1) else dict_get title m.
Proof.
  revert m. induction rows as [|t rows IH]; simpl; intros m; auto.
  rewrite IH. rewrite dict_get_set.
  destruct (string_dec t title) as [->|Hne].
  - rewrite String.eqb_refl.
    destruct (in_dec string_dec title rows); reflexivity.
  - rewrite (proj2 (String.eqb_neq _ _) Hne).
    destruct (in_dec string_dec title rows); reflexivity.
Qed.

Lemma latest_rows_get rows title m title' :
  dict_get title'
    (fold_left (fun a page_latest => dict_set title page_latest a) rows m)
  = if String.eqb title title'
    then match rows with [] => dict_get title' m | _ => Some (last rows 0) end
    else dict_get title' m.
Proof.
  revert m. induction rows as [|r rows IH]; intros m.
  - simpl. now destruct (String.eqb title title').
  - cbn [fold_left]. rewrite IH, dict_get_set.
    destruct (String.eqb title title') eqn:E; auto.
    destruct rows; reflexivity.
Qed.

Lemma latest_rows_keys rows title (m : dict Z) :
  NoDup (keys m) ->
  NoDup (keys (fold_left (fun a page_latest => dict_set title page_latest a) rows m)).
Proof.
  revert m. induction rows as [|r rows IH]; simpl; intros m H; auto.
  apply IH. now apply NoDup_keys_dict_set.
Qed.

Lemma last_default_irrelevant {A : Type} (r : A) (rows : list A) (a b : A) :
  last (r :: rows) a = last (r :: rows) b.
Proof.
  revert r. induction rows as [|r' rows IH]; intros r; [reflexivity|].
  change (last (r' :: rows) a = last (r' :: rows) b). apply IH.
Qed.

Lemma latest_loop_fold_get db ks m title v0 :
  dict_get title m = Some v0 ->
  (v0 = -1 \/ v0 = latest_of db title) ->
  dict_get title
    (fold_left
       (fun m page_title =>
          fold_left (fun m page_latest => dict_set page_title page_latest m)
                    (latest_rows db page_title) m) ks m)
  = Some (if in_dec string_dec title ks then latest_of db title else v0).
Proof.
  revert m v0. induction ks as [|t ks IH]; intros m v0 Hget Hv0; [exact Hget|].
  cbn [fold_left].
  destruct (string_dec t title) as [->|Hne].
  - rewrite (IH _ (latest_of db title)).
    + destruct (in_dec string_dec title ks), (in_dec string_dec title (title :: ks));
        simpl in *; try tauto; reflexivity.
    + rewrite latest_rows_get, String.eqb_refl.
      unfold latest_of in *.
      destruct (latest_rows db title) as [|r rows].
      * rewrite Hget. simpl in *. f_equal. tauto.
      * f_equal. apply (last_default_irrelevant r rows 0 (-1)).
    + now right.
  - rewrite (IH _ v0).
    + destruct (in_dec string_dec title ks), (in_dec string_dec title (t :: ks));
        simpl in *; try tauto; try reflexivity; intuition congruence.
    + rewrite latest_rows_get.
      now rewrite (proj2 (String.eqb_neq _ _) Hne).
    + exact Hv0.
Qed.


Lemma latest_loop_fold_absent db ks (m : dict Z) title :
  dict_get title m = None -> ~ In title ks ->
  dict_get title
    (fold_left
       (fun m page_title =>
          fold_left (fun m page_latest => dict_set page_title page_latest m)
                    (latest_rows db page_title) m) ks m)
  = None.
Proof.
  revert m. induction ks as [|t ks IH]; intros m Hget Hin; [exact Hget|].
  cbn [fold_left]. apply IH.
  - rewrite latest_rows_get.
    destruct (String.eqb t title) eqn:E; auto.
    apply String.eqb_eq in E. subst. simpl in Hin. tauto.
  - simpl in Hin. tauto.
Qed.

Lemma latest_loop_fold_keys db ks (m : dict Z) :
  NoDup (keys m) ->
  NoDup (keys
    (fold_left
       (fun m page_title =>
          fold_left (fun m page_latest => dict_set page_title page_latest m)
                    (latest_rows db page_title) m) ks m)).
Proof.
  revert m. induction ks as [|t ks IH]; intros m H; [exact H|].
  cbn [fold_left]. apply IH. now apply latest_rows_keys.
Qed.

Lemma latest_loop_get db rows title :
  dict_get title (latest_loop db (member_loop rows))
  = if in_dec string_dec title rows then Some (latest_of db title) else None.
Proof.
  unfold latest_loop, member_loop.
  pose proof (member_loop_get rows [] title) as Hm. simpl in Hm.
  destruct (in_dec string_dec title rows) as [Hin|Hin].
  - rewrite (latest_loop_fold_get db _ _ title (-1) Hm (or_introl eq_refl)).
    apply dict_get_Some_keys in Hm.
    destruct (in_dec string_dec title _); tauto.
  - apply latest_loop_fold_absent; auto.
    now apply dict_get_None.
Qed.

Lemma latest_loop_keys db rows : NoDup (keys (latest_loop db (member_loop rows))).
Proof.
  apply latest_loop_fold_keys, member_loop_keys. constructor.
Qed.

Lemma del_loop_keep titles k v (d : dict Z) :
  ~ In k titles ->
  del_loop titles ((k, v) :: d) = (k, v) :: del_loop titles d.
Proof.
  unfold del_loop. revert d. induction titles as [|t titles IH]; intros d Hin.
  - reflexivity.
  - cbn [fold_left]. rewrite dict_del_head_other by (simpl in Hin; intuition congruence).
    apply IH. simpl in Hin. tauto.
Qed.

(** The two deletion loops together keep the titles with a positive
    revision, in their order. *)
Lemma del_loop_filter (d : dict Z) :
  NoDup (keys d) ->
  del_loop (del_list d) d = filter (fun it => negb (snd it <=? 0)) d.
Proof.
  induction d as [|[k v] d IH]; intros Hnd; [reflexivity|].
  inversion Hnd as [|? ? Hk Hnd']; subst.
  unfold del_list, items in *. cbn [filter snd].
  destruct (v <=? 0) eqn:E; cbn [negb map fst].
  - unfold del_loop at 1. cbn [fold_left dict_del]. rewrite String.eqb_refl.
    apply IH, Hnd'.
  - rewrite del_loop_keep.
    + f_equal. apply IH, Hnd'.
    + intros Hin. apply Hk. apply in_map_iff in Hin.
      destruct Hin as [[k' v'] [Heq Hin]]. simpl in Heq. subst k'.
      apply filter_In in Hin. destruct Hin as [Hin _].
      now apply (in_map fst) in Hin.
Qed.

Lemma dict_get_filter {V : Type} (f : string * V -> bool) (d : dict V) k :
  NoDup (keys d) ->
  dict_get k (filter f d)
  = match dict_get k d with
    | Some v => if f (k, v) then Some v else None
    | None => None
    end.
Proof.
  induction d as [|[k' v'] d IH]; intros Hnd; [reflexivity|].
  inversion Hnd as [|? ? Hk Hnd']; subst.
  cbn [filter dict_get].
  destruct (String.eqb k k') eqn:E.
  - apply String.eqb_eq in E. subst k'.
    destruct (f (k, v')) eqn:Ef.
    + simpl. now rewrite String.eqb_refl.
    + rewrite IH by assumption.
      apply dict_get_None in Hk. now rewrite Hk.
  - destruct (f (k', v')); [simpl; rewrite E|]; now apply IH.
Qed.

Lemma NoDup_keys_filter {V : Type} (f : string * V -> bool) (d : dict V) :
  NoDup (keys d) -> NoDup (keys (filter f d)).
Proof.
  induction d as [|[k v] d IH]; intros Hnd; [constructor|].
  inversion Hnd as [|? ? Hk Hnd']; subst. simpl.
  destruct (f (k, v)); auto. simpl. constructor; auto.
  intros Hin. apply Hk. unfold keys in *. apply in_map_iff in Hin.
  destruct Hin as [x [Hx Hin]]. apply filter_In in Hin.
  apply in_map_iff. exists x. tauto.
Qed.

Lemma resolve_revisions_eq db category_name :
  resolve_revisions db category_name
  = filter (fun it => negb (snd it <=? 0))
      (latest_loop db (member_loop (member_rows db (replace " " "_" category_name)))).
Proof.
  unfold resolve_revisions. apply del_loop_filter, latest_loop_keys.
Qed.

Lemma resolve_revisions_keys db category_name :
  NoDup (keys (resolve_revisions db category_name)).
Proof.
  rewrite resolve_revisions_eq. apply NoDup_keys_filter, latest_loop_keys.
Qed.

(** A title is kept with revision [rev] exactly when it is a member of the
    category and its latest revision is [rev], a positive number. *)
Lemma resolve_revisions_get db category_name title rev :
  dict_get title (resolve_revisions db category_name) = Some rev
  <-> In title (member_rows db (replace " " "_" category_name))
      /\ rev = latest_of db title /\ 0 < rev.
Proof.
  rewrite resolve_revisions_eq, dict_get_filter by apply latest_loop_keys.
  rewrite latest_loop_get.
  destruct (in_dec string_dec title _) as [Hin|Hin].
  - cbn [snd]. destruct (latest_of db title <=? 0) eqn:E; cbn [negb].
    + apply Z.leb_le in E. split; [discriminate|]. intros (_ & -> & H). lia.
    + apply Z.leb_gt in E. split.
      * intros H. inversion H. subst. auto.
      * intros (_ & -> & _). reflexivity.
  - split; [discriminate|tauto].
Qed.

(** ** Retrieving predictions *)

Section GetPredictions.
Variable ores : ores_service.
Variable langcode : string.

(** The batch loop ends: the fuel [get_predictions] gives it is enough. *)
Lemma batches_returns fuel rev_ids i s :
  (List.length rev_ids - i <= fuel)%nat ->
  exists s', batches ores langcode fuel rev_ids i s = Returns s'.
Proof.
  revert i s. induction fuel as [|fuel IH]; intros i s Hle; cbn [batches].
  - destruct (i <? List.length rev_ids)%nat eqn:E; [|eauto].
    apply Nat.ltb_lt in E. lia.
  - destruct (i <? List.length rev_ids)%nat eqn:E; [|eauto].
    apply IH. unfold iter_size. lia.
Qed.

(** What every pass of the attempt loop keeps, the batch loop keeps. *)
Lemma batches_invariant (P : session -> Prop) :
  (forall n subset s, P s -> P (attempts ores langcode n subset s)) ->
  forall fuel rev_ids i s s',
    P s -> batches ores langcode fuel rev_ids i s = Returns s' -> P s'.
Proof.
  intros Hstep fuel rev_ids.
  induction fuel as [|fuel IH]; intros i s s' HP; cbn [batches].
  - destruct (i <? List.length rev_ids)%nat; [discriminate|].
    intros H. inversion H. now subst.
  - destruct (i <? List.length rev_ids)%nat.
    + apply IH. now apply Hstep.
    + intros H. inversion H. now subst.
Qed.

Lemma attempts_invariant (P : dict Prediction -> Prop) :
  (forall r preds, P preds -> P (fst (parse_response langcode r preds))) ->
  forall n subset s,
    P (predictions s) -> P (predictions (attempts ores langcode n subset s)).
Proof.
  intros Hstep n subset. induction n as [|n IH]; intros s HP; simpl; auto.
  destruct (status_code _ =? 200).
  - specialize (Hstep (ores (requests s) subset) (predictions s) HP).
    destruct (parse_response _ _ _) as [preds [e|]]; simpl in *; auto.
  - apply IH. exact HP.
Qed.

End GetPredictions.

Lemma Forall_dict_set {V : Type} (P : string * V -> Prop) k v (d : dict V) :
  (forall k', P (k', v)) -> Forall P d -> Forall P (dict_set k v d).
Proof.
  intros Hv. induction d as [|[k' v'] d IH]; simpl; intros H.
  - constructor; auto.
  - inversion H; subst. destruct (String.eqb k k'); constructor; auto.
Qed.

Lemma store_scores_fresh its preds :
  Forall (fun it => p_above_target (snd it) = 0.0%float) preds ->
  Forall (fun it => p_above_target (snd it) = 0.0%float) (fst (store_scores its preds)).
Proof.
  revert preds. induction its as [|[revid sd] its IH]; intros preds H; simpl; auto.
  destruct (sd_prediction sd); auto.
  destruct (sd_probability sd); auto.
  apply IH, Forall_dict_set; auto.
Qed.

Lemma parse_response_fresh langcode r preds :
  Forall (fun it => p_above_target (snd it) = 0.0%float) preds ->
  Forall (fun it => p_above_target (snd it) = 0.0%float)
         (fst (parse_response langcode r preds)).
Proof.
  intros H. unfold parse_response.
  destruct (json r); auto.
  repeat (match goal with |- context [dict_get ?k ?d] => destruct (dict_get k d) end; auto).
  now apply store_scores_fresh.
Qed.

(** [get_predictions] returns, and every prediction it returns has the
    [p_above_target] its constructor gave it, 0.0. *)
Lemma get_predictions_returns ores rev_ids :
  exists s, get_predictions ores rev_ids = Returns s.
Proof.
  apply batches_returns. lia.
Qed.

Lemma get_predictions_fresh ores rev_ids s r p :
  get_predictions ores rev_ids = Returns s ->
  dict_get r (predictions s) = Some p ->
  p_above_target p = 0.0%float.
Proof.
  intros Hs Hget. unfold get_predictions in Hs.
  apply (batches_invariant ores _
           (fun s => Forall (fun it => p_above_target (snd it) = 0.0%float)
                            (predictions s))) in Hs.
  - apply dict_get_In in Hget. rewrite Forall_forall in Hs.
    apply (Hs (r, p) Hget).
  - intros n subset s0. apply attempts_invariant.
    intros r0 preds. apply parse_response_fresh.
  - constructor.
Qed.

(** ** The candidate loop *)

Lemma wp10_map_eq :
  wp10_map = [("FA", 0); ("GA", 1); ("B", 2); ("C", 3); ("Start", 4); ("Stub", 5)].
Proof. reflexivity. Qed.

(** An index found in [wp10_map] is the position of the name in [wp10]. *)
Lemma wp10_map_index c k :
  dict_get c wp10_map = Some k ->
  0 <= k < 6 /\ nth_error wp10 (Z.to_nat k) = Some c.
Proof.
  rewrite wp10_map_eq. cbn [dict_get].
  repeat (destruct (String.eqb c _) eqn:E;
          [ apply String.eqb_eq in E; subst c; intros H; inversion H; subst k;
            split; [lia | reflexivity]
          | clear E ]).
  discriminate.
Qed.

Lemma set_p_above_target_same p : set_p_above_target p (p_above_target p) = p.
Proof. now destruct p. Qed.

Lemma above_loop_sum range classes p :
  map (nth_error wp10) range = map Some classes ->
  above_loop range p
  = match sum_probs (p_above_target p) classes (probs p) with
    | Some x => Returns (set_p_above_target p x)
    | None => Raises KeyError
    end.
Proof.
  revert classes p.
  induction range as [|i range IH]; intros [|c classes] p H; try discriminate.
  - simpl. now rewrite set_p_above_target_same.
  - cbn [map] in H. inversion H as [[Hi Hrest]].
    cbn [above_loop sum_probs]. rewrite Hi.
    destruct (dict_get c (probs p)) as [x|]; cbn [getitem bind]; [|reflexivity].
    now rewrite (IH classes).
Qed.

Lemma range_classes n :
  (n <= 6)%nat -> map (nth_error wp10) (seq 0 n) = map Some (firstn n wp10).
Proof.
  intros H. do 7 (destruct n as [|n]; [reflexivity|]). lia.
Qed.

Lemma passes_same_fields t d p p' :
  same_fields p p' -> passes t d p' = passes t d p.
Proof.
  intros (_ & Hr & _). unfold passes. now rewrite Hr.
Qed.

Lemma same_fields_refl p : same_fields p p.
Proof. repeat split. Qed.

Lemma same_fields_trans p q r :
  same_fields p q -> same_fields q r -> same_fields p r.
Proof. unfold same_fields. intuition congruence. Qed.

Lemma same_fields_set p x : same_fields p (set_p_above_target p x).
Proof. repeat split. Qed.

(** One pass of the loop body, as a case distinction. *)
Lemma candidate_loop_step t d page_title rev_id pairs store cmap :
  0 <= t < 6 ->
  candidate_loop t d ((page_title, rev_id) :: pairs) store cmap
  = match dict_get (str rev_id) store with
    | None => candidate_loop t d pairs store cmap
    | Some p =>
        match dict_get (rating p) wp10_map with
        | None => Raises KeyError
        | Some _ =>
            if passes t d p then
              match sum_probs (p_above_target p) (firstn (Z.to_nat t) wp10) (probs p) with
              | None => Raises KeyError
              | Some x =>
                  candidate_loop t d pairs
                    (dict_set (str rev_id) (set_p_above_target p x) store)
                    (dict_set page_title (str rev_id) cmap)
              end
            else candidate_loop t d pairs store cmap
        end
    end.
Proof.
  intros Ht. cbn [candidate_loop].
  destruct (dict_get (str rev_id) store) as [p|]; [|reflexivity].
  unfold passes.
  destruct (dict_get (rating p) wp10_map) as [k|]; cbn [getitem bind]; [|reflexivity].
  destruct (t - k >=? d); [|reflexivity].
  rewrite (above_loop_sum _ (firstn (Z.to_nat t) wp10)) by (apply range_classes; lia).
  now destruct (sum_probs _ _ _).
Qed.

(** What the loop does to the store: every object stays where it is, with
    its revision, rating and probabilities; [p_above_target] changes only
    for an object that passes the filter, once for each pair that refers to
    it. *)
Lemma candidate_loop_store t d pairs :
  0 <= t < 6 ->
  forall store cmap cmap' store',
  candidate_loop t d pairs store cmap = Returns (CandidateMap cmap' store') ->
  forall r,
    match dict_get r store with
    | None => dict_get r store' = None
    | Some p =>
        exists p', dict_get r store' = Some p' /\ same_fields p p'
          /\ (passes t d p = false -> p_above_target p' = p_above_target p)
          /\ (~ In r (map (fun it => str (snd it)) pairs) ->
              p_above_target p' = p_above_target p)
          /\ (count_occ string_dec (map (fun it => str (snd it)) pairs) r = 1%nat ->
              passes t d p = true ->
              sum_probs (p_above_target p) (firstn (Z.to_nat t) wp10) (probs p)
              = Some (p_above_target p'))
    end.
Proof.
  intros Ht. induction pairs as [|[t0 r0] pairs IH]; intros store cmap cmap' store' Hloop r.
  - simpl in Hloop. inversion Hloop; subst.
    destruct (dict_get r store') as [p|] eqn:E; [|reflexivity].
    exists p. repeat split; auto. simpl. discriminate.
  - rewrite candidate_loop_step in Hloop by exact Ht.
    cbn [map count_occ snd].
    destruct (dict_get (str r0) store) as [p0|] eqn:E0.
    + destruct (dict_get (rating p0) wp10_map) as [k|] eqn:Ek; [|discriminate].
      destruct (passes t d p0) eqn:Epass.
      * destruct (sum_probs _ _ _) as [x|] eqn:Ex; [|discriminate].
        specialize (IH _ _ _ _ Hloop r). rewrite dict_get_set in IH.
        destruct (string_dec (str r0) r) as [Heq|Hne].
        -- subst r. rewrite String.eqb_refl in IH. rewrite E0.
           destruct IH as (p' & Hget & Hsame & _ & Hnot & _).
           exists p'. split; [exact Hget|]. split.
           { eapply same_fields_trans; [apply same_fields_set|exact Hsame]. }
           split; [congruence|]. split; [simpl; tauto|].
           intros Hcount _. rewrite Hnot; [exact Ex|].
           apply (count_occ_not_In string_dec). lia.
        -- rewrite (proj2 (String.eqb_neq _ _) Hne) in IH.
           destruct (dict_get r store) as [p|]; [|exact IH].
           destruct IH as (p' & Hget & Hsame & Hfail & Hnot & Hone).
           exists p'. repeat split; try apply Hsame; auto.
           intros Hin. apply Hnot. simpl in Hin. tauto.
      * specialize (IH _ _ _ _ Hloop r).
        destruct (dict_get r store) as [p|] eqn:E; [|exact IH].
        destruct IH as (p' & Hget & Hsame & Hfail & Hnot & Hone).
        exists p'. repeat split; try apply Hsame; auto.
        -- intros Hin. apply Hnot. simpl in Hin. tauto.
        -- destruct (string_dec (str r0) r) as [Heq|Hne]; [|exact Hone].
           subst r. intros _ Hp. congruence.
    + specialize (IH _ _ _ _ Hloop r).
      destruct (dict_get r store) as [p|] eqn:E; [|exact IH].
      destruct IH as (p' & Hget & Hsame & Hfail & Hnot & Hone).
      exists p'. repeat split; try apply Hsame; auto.
      * intros Hin. apply Hnot. simpl in Hin. tauto.
      * destruct (string_dec (str r0) r) as [Heq|Hne]; [|exact Hone].
        subst r. congruence.
Qed.

(** What the loop does to the candidate map: a title of a pair whose
    prediction passes the filter is mapped to that prediction; every other
    title is left as it was. *)
Lemma candidate_loop_map t d pairs :
  0 <= t < 6 ->
  NoDup (map fst pairs) ->
  forall store cmap cmap' store',
  candidate_loop t d pairs store cmap = Returns (CandidateMap cmap' store') ->
  forall title,
    (~ In title (map fst pairs) -> dict_get title cmap' = dict_get title cmap)
    /\ (forall rev, In (title, rev) pairs ->
        dict_get title cmap'
        = match dict_get (str rev) store with
          | Some p => if passes t d p then Some (str rev) else dict_get title cmap
          | None => dict_get title cmap
          end).
Proof.
  intros Ht. induction pairs as [|[t0 r0] pairs IH];
    intros Hnd store cmap cmap' store' Hloop title.
  - simpl in Hloop. inversion Hloop; subst. simpl. tauto.
  - rewrite candidate_loop_step in Hloop by exact Ht.
    cbn [map fst] in Hnd |- *. inversion Hnd as [|? ? Hfresh Hnd']; subst.
    assert (Hskip : forall store1,
      (forall r, dict_get r store = None -> dict_get r store1 = None) ->
      (forall r p, dict_get r store = Some p ->
         exists p1, dict_get r store1 = Some p1 /\ same_fields p p1) ->
      candidate_loop t d pairs store1 cmap = Returns (CandidateMap cmap' store') ->
      match dict_get (str r0) store with
      | Some p => passes t d p = false
      | None => True
      end ->
      (~ In title (t0 :: map fst pairs) -> dict_get title cmap' = dict_get title cmap)
      /\ (forall rev, In (title, rev) ((t0, r0) :: pairs) ->
          dict_get title cmap'
          = match dict_get (str rev) store with
            | Some p => if passes t d p then Some (str rev) else dict_get title cmap
            | None => dict_get title cmap
            end)).
    { intros store1 Hnone Hsome Hl Hfail.
      destruct (IH Hnd' _ _ _ _ Hl title) as [Hout Hin]. split.
      - intros Hn. apply Hout. simpl in Hn. tauto.
      - intros rev [Heq|Hrest].
        + inversion Heq; subst.
          rewrite Hout by exact Hfresh.
          destruct (dict_get (str rev) store) as [p|]; [now rewrite Hfail|reflexivity].
        + rewrite (Hin rev Hrest).
          destruct (dict_get (str rev) store) as [p|] eqn:E.
          * destruct (Hsome _ _ E) as (p1 & -> & Hsame).
            now rewrite (passes_same_fields _ _ _ _ Hsame).
          * now rewrite (Hnone _ E). }
    destruct (dict_get (str r0) store) as [p0|] eqn:E0.
    + destruct (dict_get (rating p0) wp10_map) as [k|] eqn:Ek; [|discriminate].
      destruct (passes t d p0) eqn:Epass.
      * destruct (sum_probs _ _ _) as [x|] eqn:Ex; [|discriminate].
        destruct (IH Hnd' _ _ _ _ Hloop title) as [Hout Hin]. split.
        -- intros Hn. rewrite Hout by (simpl in Hn; tauto).
           apply dict_get_set_other. simpl in Hn. intuition congruence.
        -- intros rev [Heq|Hrest].
           ++ inversion Heq; subst.
              rewrite Hout by exact Hfresh.
              now rewrite dict_get_set_same, E0, Epass.
           ++ assert (Hne : t0 <> title).
              { intros ->. apply Hfresh. now apply (in_map fst) in Hrest. }
              rewrite (Hin rev Hrest), dict_get_set.
              rewrite (dict_get_set_other _ _ _ _ Hne).
              destruct (String.eqb (str r0) (str rev)) eqn:E.
              ** apply String.eqb_eq in E. rewrite <- E, E0.
                 now rewrite (passes_same_fields _ _ _ _ (same_fields_set p0 x)).
              ** reflexivity.
      * apply (Hskip store); auto. intros r p Hp. exists p. split; auto using same_fields_refl.
    + apply (Hskip store); auto. intros r p Hp. exists p. split; auto using same_fields_refl.
Qed.

Lemma well_formed_same_fields p p' :
  same_fields p p' -> well_formed p' = well_formed p.
Proof.
  intros (_ & Hr & Hp). unfold well_formed. now rewrite Hr, Hp.
Qed.

Lemma sum_probs_defined acc classes ps :
  forallb (has_key ps) classes = true ->
  exists x, sum_probs acc classes ps = Some x.
Proof.
  revert acc. induction classes as [|c classes IH]; intros acc H; simpl in *.
  - eauto.
  - apply andb_true_iff in H. destruct H as [Hc Hrest]. unfold has_key in Hc.
    destruct (dict_get c ps); [|discriminate]. now apply IH.
Qed.

Lemma forallb_firstn {A : Type} (f : A -> bool) n (l : list A) :
  forallb f l = true -> forallb f (firstn n l) = true.
Proof.
  revert n. induction l as [|a l IH]; intros [|n] H; simpl in *; auto.
  apply andb_true_iff in H. destruct H as [-> H]. now apply IH.
Qed.

Lemma all_well_formed_get store r p :
  all_well_formed store = true -> dict_get r store = Some p -> well_formed p = true.
Proof.
  intros Hall Hget. unfold all_well_formed in Hall.
  rewrite forallb_forall in Hall. apply (Hall (r, p)). now apply dict_get_In.
Qed.

Lemma all_well_formed_set store r p :
  all_well_formed store = true -> well_formed p = true ->
  all_well_formed (dict_set r p store) = true.
Proof.
  unfold all_well_formed. intros Hall Hp.
  induction store as [|[k v] store IH]; simpl in *.
  - now rewrite Hp.
  - apply andb_true_iff in Hall. destruct Hall as [Hv Hall].
    destruct (String.eqb r k); simpl; rewrite ?Hp, ?Hv; auto.
Qed.

(** On well-formed predictions the loop raises nothing. *)
Lemma candidate_loop_returns t d pairs :
  0 <= t < 6 ->
  forall store cmap,
  all_well_formed store = true ->
  exists cmap' store',
    candidate_loop t d pairs store cmap = Returns (CandidateMap cmap' store').
Proof.
  intros Ht. induction pairs as [|[t0 r0] pairs IH]; intros store cmap Hall.
  - simpl. eauto.
  - rewrite candidate_loop_step by exact Ht.
    destruct (dict_get (str r0) store) as [p0|] eqn:E0; [|now apply IH].
    pose proof (all_well_formed_get _ _ _ Hall E0) as Hwf.
    unfold well_formed, has_key in Hwf. apply andb_true_iff in Hwf.
    destruct Hwf as [Hr Hp].
    destruct (dict_get (rating p0) wp10_map) as [k|] eqn:Ek; [|discriminate].
    destruct (passes t d p0); [|now apply IH].
    destruct (sum_probs_defined (p_above_target p0) (firstn (Z.to_nat t) wp10) (probs p0))
      as [x ->].
    { now apply forallb_firstn. }
    apply IH, all_well_formed_set; auto.
    rewrite (well_formed_same_fields p0) by apply same_fields_set.
    now apply (all_well_formed_get _ _ _ Hall E0).
Qed.

(** The loops of [predict] are over finite lists: they never run out of
    fuel. *)
Lemma above_loop_finishes range p : above_loop range p <> OutOfFuel.
Proof.
  revert p. induction range as [|i range IH]; intros p; cbn [above_loop]; [discriminate|].
  destruct (nth_error wp10 i); [|discriminate].
  destruct (dict_get _ (probs p)); cbn [getitem bind]; [apply IH|discriminate].
Qed.

Lemma candidate_loop_finishes t d pairs store cmap :
  candidate_loop t d pairs store cmap <> OutOfFuel.
Proof.
  revert store cmap.
  induction pairs as [|[t0 r0] pairs IH]; intros store cmap; cbn [candidate_loop];
    [discriminate|].
  destruct (dict_get (str r0) store) as [p0|]; [|apply IH].
  destruct (dict_get (rating p0) wp10_map); cbn [getitem bind]; [|discriminate].
  destruct (t - _ >=? d); [|apply IH].
  pose proof (above_loop_finishes (seq 0 (Z.to_nat t)) p0) as Hfin.
  destruct (above_loop _ p0); cbn [bind]; [apply IH|discriminate|congruence].
Qed.

Lemma predict_finishes db ores category_name target distance :
  predict db ores category_name target distance <> OutOfFuel.
Proof.
  unfold predict, db_connect. destruct (reachable db); cbn [bind negb]; [|discriminate].
  destruct (get_predictions_returns ores
              (map str (values (resolve_revisions db category_name)))) as [s ->].
  cbn [bind].
  destruct (dict_get target wp10_map); cbn [getitem bind]; [|discriminate].
  apply candidate_loop_finishes.
Qed.

(** ** Revision ids as strings *)

Lemma str_inj a b : str a = str b -> a = b.
Proof.
  unfold str. intros H.
  assert (Hn : forall z, Z.to_int z <> Decimal.Pos Decimal.Nil
                         /\ Z.to_int z <> Decimal.Neg Decimal.Nil).
  { intros [|q|q]; simpl; split; try discriminate;
      intros Hq; inversion Hq as [Hq']; now apply Unsigned.to_uint_nonnil in Hq'. }
  apply to_int_inj.
  destruct (Hn a) as [Ha1 Ha2]. destruct (Hn b) as [Hb1 Hb2].
  pose proof (NilZero.isi _ Ha1 Ha2) as Ia.
  pose proof (NilZero.isi _ Hb1 Hb2) as Ib.
  rewrite H in Ia. congruence.
Qed.

(** A revision that one title only resolves to is referred to once. *)
Lemma count_occ_unique (pairs : list (string * Z)) title rev :
  NoDup (map fst pairs) ->
  In (title, rev) pairs ->
  (forall title', In (title', rev) pairs -> title' = title) ->
  count_occ string_dec (map (fun it => str (snd it)) pairs) (str rev) = 1%nat.
Proof.
  induction pairs as [|[t0 r0] pairs IH]; intros Hnd Hin Huniq; [contradiction|].
  cbn [map fst snd] in *. inversion Hnd as [|? ? Hfresh Hnd']; subst.
  cbn [count_occ].
  destruct (string_dec (str r0) (str rev)) as [Heq|Hne].
  - apply str_inj in Heq. subst r0.
    assert (t0 = title) by (apply Huniq; now left). subst t0.
    f_equal. apply count_occ_not_In. intros Hin'.
    apply in_map_iff in Hin'. destruct Hin' as [[t1 r1] [Hr Hin1]].
    cbn [snd] in Hr. apply str_inj in Hr. subst r1.
    assert (t1 = title) by (apply Huniq; now right). subst t1.
    apply Hfresh. now apply (in_map fst) in Hin1.
  - destruct Hin as [Heq|Hin]; [inversion Heq; congruence|].
    apply IH; auto. intros title' Hin'. apply Huniq. now right.
Qed.

(** ** One run of [predict]

    The database is reachable, [get_predictions] has returned the session
    [s] for the revisions of the category, and the target is a key of
    [wp10_map] with index [target_idx]. *)

Section Run.
Variables (db : database) (ores : ores_service).
Variables (category_name target : string) (distance : Z).
Variables (s : session) (target_idx : Z).
Hypothesis connected : reachable db = true.
Hypothesis fetched : get_predictions ores (requested db category_name) = Returns s.
Hypothesis target_known : dict_get target wp10_map = Some target_idx.

Let art_rev_map : dict Z := resolve_revisions db category_name.

Lemma predict_eq :
  predict db ores category_name target distance
  = candidate_loop target_idx distance art_rev_map (predictions s) [].
Proof.
  unfold predict, db_connect. rewrite connected. cbn [bind negb].
  fold (requested db category_name). rewrite fetched. cbn [bind].
  now rewrite target_known.
Qed.

Lemma target_idx_range : 0 <= target_idx < 6.
Proof. now apply (wp10_map_index target). Qed.

(** When every prediction retrieved is well formed, [predict] returns a
    candidate map. *)
Lemma predict_returns :
  all_well_formed (predictions s) = true ->
  exists cmap store,
    predict db ores category_name target distance = Returns (CandidateMap cmap store).
Proof.
  rewrite predict_eq. apply candidate_loop_returns, target_idx_range.
Qed.

Lemma art_rev_map_In title rev :
  dict_get title art_rev_map = Some rev <-> In (title, rev) art_rev_map.
Proof.
  split; [apply dict_get_In|].
  apply In_dict_get, resolve_revisions_keys.
Qed.

(** C1: a title whose revision has a prediction is in the candidate map
    exactly when the index of the target minus the index of the predicted
    rating is at least the distance; so it is in when the difference is the
    distance and out when it is one less. *)
Theorem candidate_iff_distance title rev pred idx :
  dict_get title art_rev_map = Some rev ->
  dict_get (str rev) (predictions s) = Some pred ->
  dict_get (rating pred) wp10_map = Some idx ->
  (all_well_formed (predictions s) = true ->
   exists cmap store,
     predict db ores category_name target distance = Returns (CandidateMap cmap store))
  /\ forall cmap store,
      predict db ores category_name target distance = Returns (CandidateMap cmap store) ->
      (dict_get title cmap = Some (str rev) <-> target_idx - idx >= distance)
      /\ (dict_get title cmap = None <-> target_idx - idx < distance)
      /\ (target_idx - idx = distance -> dict_get title cmap = Some (str rev))
      /\ (target_idx - idx = distance - 1 -> dict_get title cmap = None).
Proof.
  intros Hart Hpred Hidx. split; [apply predict_returns|].
  intros cmap store Hrun. rewrite predict_eq in Hrun.
  destruct (candidate_loop_map _ _ _ target_idx_range
              (resolve_revisions_keys db category_name) _ _ _ _ Hrun title)
    as [_ Hin].
  specialize (Hin rev (proj1 (art_rev_map_In _ _) Hart)).
  rewrite Hpred in Hin. unfold passes in Hin. rewrite Hidx in Hin.
  cbn [dict_get] in Hin.
  destruct (target_idx - idx >=? distance) eqn:E; rewrite Hin.
  - apply Z.geb_ge in E. repeat split; auto; try discriminate; lia.
  - assert (target_idx - idx < distance).
    { rewrite Z.geb_leb in E. apply Z.leb_gt in E. lia. }
    repeat split; auto; try discriminate; lia.
Qed.

(** C3: the prediction of a candidate was constructed with
    [p_above_target] 0.0, and after [predict] the field is the sum, from
    0.0 on, of its probabilities for the classes with indices 0 to
    [target_idx - 1]: 0.0 itself when the target is FA, the sum over the
    five other classes when it is Stub.  The database gives each revision
    to one page, so that one title refers to the object and the loop adds
    to the field in one pass. *)
Theorem p_above_target_is_sum title rev pred cmap store :
  one_page_per_revision db ->
  predict db ores category_name target distance = Returns (CandidateMap cmap store) ->
  dict_get title art_rev_map = Some rev ->
  dict_get (str rev) (predictions s) = Some pred ->
  dict_get title cmap = Some (str rev) ->
  p_above_target pred = 0.0%float
  /\ exists pred',
      dict_get (str rev) store = Some pred'
      /\ same_fields pred pred'
      /\ probability_above target_idx (probs pred) = Some (p_above_target pred')
      /\ (target = "FA" -> p_above_target pred' = 0.0%float)
      /\ (target = "Stub" ->
          exists fa ga b c start,
            dict_get "FA" (probs pred) = Some fa
            /\ dict_get "GA" (probs pred) = Some ga
            /\ dict_get "B" (probs pred) = Some b
            /\ dict_get "C" (probs pred) = Some c
            /\ dict_get "Start" (probs pred) = Some start
            /\ p_above_target pred' = (0.0 + fa + ga + b + c + start)%float).
Proof.
  intros Hdb Hrun Hart Hpred Hcand.
  assert (Huniq : forall title', dict_get title' art_rev_map = Some rev -> title' = title).
  { intros title' Hart'.
    apply resolve_revisions_get in Hart. destruct Hart as (_ & Hrev & Hpos).
    apply resolve_revisions_get in Hart'. destruct Hart' as (_ & Hrev' & _).
    apply Hdb; congruence. }
  pose proof (get_predictions_fresh _ _ _ _ _ fetched Hpred) as Hfresh.
  split; [exact Hfresh|].
  rewrite predict_eq in Hrun.
  pose proof (candidate_loop_store _ _ _ target_idx_range _ _ _ _ Hrun (str rev)) as Hst.
  rewrite Hpred in Hst. destruct Hst as (pred' & Hget & Hsame & _ & _ & Hone).
  exists pred'. split; [exact Hget|]. split; [exact Hsame|].
  assert (Hpass : passes target_idx distance pred = true).
  { destruct (candidate_loop_map _ _ _ target_idx_range
                (resolve_revisions_keys db category_name) _ _ _ _ Hrun title)
      as [_ Hin].
    specialize (Hin rev (proj1 (art_rev_map_In _ _) Hart)).
    rewrite Hpred, Hcand in Hin.
    destruct (passes target_idx distance pred); [reflexivity|discriminate]. }
  assert (Hsum : probability_above target_idx (probs pred) = Some (p_above_target pred')).
  { unfold probability_above. rewrite <- Hfresh. apply Hone; [|exact Hpass].
    apply (count_occ_unique _ title).
    - apply resolve_revisions_keys.
    - now apply art_rev_map_In.
    - intros title' Hin. apply Huniq. now apply art_rev_map_In. }
  split; [exact Hsum|]. split.
  - intros ->. rewrite wp10_map_eq in target_known. cbn in target_known.
    inversion target_known; subst target_idx.
    cbn in Hsum. congruence.
  - intros ->. rewrite wp10_map_eq in target_known. cbn in target_known.
    inversion target_known; subst target_idx.
    unfold probability_above in Hsum.
    change (firstn (Z.to_nat 5) wp10) with ["FA"; "GA"; "B"; "C"; "Start"] in Hsum.
    cbn [sum_probs] in Hsum.
    destruct (dict_get "FA" (probs pred)) as [fa|]; [|discriminate].
    destruct (dict_get "GA" (probs pred)) as [ga|]; [|discriminate].
    destruct (dict_get "B" (probs pred)) as [b|]; [|discriminate].
    destruct (dict_get "C" (probs pred)) as [c|]; [|discriminate].
    destruct (dict_get "Start" (probs pred)) as [start|]; [|discriminate].
    exists fa, ga, b, c, start. repeat split; congruence.
Qed.

(** C8: a member of the category with no latest revision is not in
    [art_rev_map] and not in the candidate map, and a title whose revision
    has no prediction is not in the candidate map; neither makes [predict]
    raise. *)
Theorem unresolved_and_unpredicted_excluded :
  (all_well_formed (predictions s) = true ->
   exists cmap store,
     predict db ores category_name target distance = Returns (CandidateMap cmap store))
  /\ forall cmap store,
      predict db ores category_name target distance = Returns (CandidateMap cmap store) ->
      forall title,
        (latest_rows db title = [] ->
         dict_get title art_rev_map = None /\ dict_get title cmap = None)
        /\ (forall rev,
              dict_get title art_rev_map = Some rev ->
              dict_get (str rev) (predictions s) = None ->
              dict_get title cmap = None).
Proof.
  split; [apply predict_returns|].
  intros cmap store Hrun title. rewrite predict_eq in Hrun.
  destruct (candidate_loop_map _ _ _ target_idx_range
              (resolve_revisions_keys db category_name) _ _ _ _ Hrun title)
    as [Hout Hin].
  split.
  - intros Hrows.
    assert (Hnone : dict_get title art_rev_map = None).
    { destruct (dict_get title art_rev_map) as [rev|] eqn:E; [|reflexivity].
      apply resolve_revisions_get in E. destruct E as (_ & Hrev & Hpos).
      unfold latest_of in Hrev. rewrite Hrows in Hrev. simpl in Hrev. lia. }
    split; [exact Hnone|].
    rewrite Hout; [reflexivity|]. now apply dict_get_None.
  - intros rev Hart Hpred.
    rewrite (Hin rev (proj1 (art_rev_map_In _ _) Hart)), Hpred. reflexivity.
Qed.

(** C10: a title whose prediction does not pass the distance filter is not
    in the candidate map and its prediction still has [p_above_target] 0.0;
    and [predict] leaves the revision, rating and probabilities of every
    prediction as they were. *)
Theorem filtered_out_untouched cmap store :
  predict db ores category_name target distance = Returns (CandidateMap cmap store) ->
  (forall title rev pred idx,
      dict_get title art_rev_map = Some rev ->
      dict_get (str rev) (predictions s) = Some pred ->
      dict_get (rating pred) wp10_map = Some idx ->
      target_idx - idx < distance ->
      dict_get title cmap = None
      /\ exists pred', dict_get (str rev) store = Some pred'
                       /\ p_above_target pred' = 0.0%float)
  /\ (forall r pred,
        dict_get r (predictions s) = Some pred ->
        exists pred', dict_get r store = Some pred'
                      /\ rev_id pred' = rev_id pred
                      /\ rating pred' = rating pred
                      /\ probs pred' = probs pred).
Proof.
  intros Hrun. rewrite predict_eq in Hrun.
  pose proof (candidate_loop_store _ _ _ target_idx_range _ _ _ _ Hrun) as Hst.
  split.
  - intros title rev pred idx Hart Hpred Hidx Hlt.
    assert (Hfail : passes target_idx distance pred = false).
    { unfold passes. rewrite Hidx, Z.geb_leb. apply Z.leb_gt. lia. }
    split.
    + destruct (candidate_loop_map _ _ _ target_idx_range
                  (resolve_revisions_keys db category_name) _ _ _ _ Hrun title)
        as [_ Hin].
      rewrite (Hin rev (proj1 (art_rev_map_In _ _) Hart)), Hpred, Hfail.
      reflexivity.
    + specialize (Hst (str rev)). rewrite Hpred in Hst.
      destruct Hst as (pred' & Hget & _ & Hkeep & _).
      exists pred'. split; [exact Hget|].
      rewrite (Hkeep Hfail). apply (get_predictions_fresh _ _ _ _ _ fetched Hpred).
  - intros r pred Hpred. specialize (Hst r). rewrite Hpred in Hst.
    destruct Hst as (pred' & Hget & Hsame & _).
    exists pred'. split; [exact Hget|exact Hsame].
Qed.

End Run.

(** *** The theorems of a run on the scenario *)

Lemma candidate_iff_distance_witness :
  exists cmap store,
    predict scenario_db (scenario_ores scenario_probs_102) "Some category" "C" 2
    = Returns (CandidateMap cmap store)
    /\ (dict_get "B" cmap = Some "102" <-> 3 - 0 >= 2)
    /\ (dict_get "A" cmap = None <-> 3 - 5 < 2).
Proof.
  destruct (candidate_iff_distance scenario_db (scenario_ores scenario_probs_102)
              "Some category" "C" 2 _ 3 eq_refl eq_refl eq_refl
              "B" 102 _ 0 eq_refl eq_refl eq_refl) as [Hret HB].
  destruct (candidate_iff_distance scenario_db (scenario_ores scenario_probs_102)
              "Some category" "C" 2 _ 3 eq_refl eq_refl eq_refl
              "A" 101 _ 5 eq_refl eq_refl eq_refl) as [_ HA].
  destruct (Hret eq_refl) as (cmap & store & Hrun).
  exists cmap, store. split; [exact Hrun|]. split.
  - apply (HB _ _ Hrun).
  - apply (HA _ _ Hrun).
Defined.

Lemma p_above_target_is_sum_witness :
  exists pred',
    p_above_target pred' = (0.0 + 0.9 + 0.05 + 0.02)%float
    /\ probability_above 3 (probs pred') = Some (p_above_target pred').
Proof.
  assert (Hdb : one_page_per_revision scenario_db).
  { intros title title' Hpos Heq. unfold latest_of in *.
    cbn [scenario_db latest_rows] in *.
    destruct (String.eqb_spec title "A"), (String.eqb_spec title' "A"),
             (String.eqb_spec title "B"), (String.eqb_spec title' "B");
      cbn [last] in *; try congruence; try lia. }
  destruct (p_above_target_is_sum scenario_db (scenario_ores scenario_probs_102)
              "Some category" "C" 2 _ 3 eq_refl eq_refl eq_refl
              "B" 102 _ _ _ Hdb eq_refl eq_refl eq_refl eq_refl)
    as (_ & pred' & Hget & Hsame & Hsum & _).
  exists pred'. destruct Hsame as (_ & _ & Hprobs). rewrite Hprobs.
  split; [|exact Hsum].
  assert (Hs : Some (p_above_target pred') = Some (0.0 + 0.9 + 0.05 + 0.02)%float)
    by (rewrite <- Hsum; reflexivity).
  now injection Hs.
Defined.

Lemma unresolved_and_unpredicted_excluded_witness :
  exists cmap store,
    predict scenario_db unscored_ores "Some category" "Stub" 0
    = Returns (CandidateMap cmap store)
    /\ dict_get "A" cmap = Some "101"
    /\ dict_get "B" cmap = None
    /\ dict_get "C" cmap = None.
Proof.
  destruct (unresolved_and_unpredicted_excluded scenario_db unscored_ores
              "Some category" "Stub" 0 _ 5 eq_refl eq_refl eq_refl) as [Hret Hex].
  destruct (Hret eq_refl) as (cmap & store & Hrun).
  exists cmap, store. split; [exact Hrun|].
  split.
  - vm_compute in Hrun. inversion Hrun. reflexivity.
  - split.
    + apply (proj2 (Hex _ _ Hrun "B") 102); reflexivity.
    + apply (proj1 (Hex _ _ Hrun "C")). reflexivity.
Defined.

Lemma filtered_out_untouched_witness :
  exists cmap store pred',
    predict scenario_db (scenario_ores scenario_probs_102) "Some category" "C" 2
    = Returns (CandidateMap cmap store)
    /\ dict_get "A" cmap = None
    /\ dict_get "101" store = Some pred'
    /\ p_above_target pred' = 0.0%float
    /\ rating pred' = "Stub" /\ probs pred' = probs_101.
Proof.
  destruct (predict_returns scenario_db (scenario_ores scenario_probs_102)
              "Some category" "C" 2 _ 3 eq_refl eq_refl eq_refl eq_refl)
    as (cmap & store & Hrun).
  destruct (filtered_out_untouched scenario_db (scenario_ores scenario_probs_102)
              "Some category" "C" 2 _ 3 eq_refl eq_refl eq_refl _ _ Hrun)
    as [Hout Hsame].
  destruct (Hout "A" 101 _ 5 eq_refl eq_refl eq_refl ltac:(lia))
    as (Hnone & pred' & Hget & Hzero).
  destruct (Hsame "101" _ eq_refl) as (pred'' & Hget' & _ & Hr & Hp).
  change (str 101) with "101" in Hget.
  assert (pred'' = pred') by congruence. subst pred''.
  exists cmap, store, pred'. repeat split; auto.
Defined.

(** ** The end-to-end scenario *)

(** C2 (as the code has it): with target C and distance 2 the candidate is
    B, whose predicted FA is three classes above C; A, predicted Stub, is
    two classes below and is left out with [p_above_target] 0.0.  The one
    row of the report is B, FA and the percentage of 0.0 + 0.9 + GA + B of
    revision 102.  The sum the scenario gives for A, 0.08 rendered 8.0, is
    what A's probabilities above C add up to, were it a candidate. *)
Theorem scenario_report ga b c start stub :
  exists store,
    predict scenario_db (scenario_ores (probs_102 ga b c start stub))
            "Some category" "C" 2
    = Returns (CandidateMap [("B", "102")] store)
    /\ dict_get "102" store
       = Some (mkPrediction "102" "FA" (probs_102 ga b c start stub)
                            (0.0 + 0.9 + ga + b)%float)
    /\ dict_get "101" store = Some (mkPrediction "101" "Stub" probs_101 0.0%float)
    /\ main scenario_db (scenario_ores (probs_102 ga b c start stub))
            "Some category" "C" 2
       = Returns (table_start "C" ++ nl ++ "|-" ++ nl ++ "| [[B]] || FA || "
                    ++ format_1f (100 * (0.0 + 0.9 + ga + b))%float ++ table_end)
    /\ probability_above 3 probs_101 = Some (0.0 + 0.01 + 0.02 + 0.05)%float
    /\ format_1f (100 * (0.0 + 0.01 + 0.02 + 0.05))%float = "8.0".
Proof.
  eexists. split; [reflexivity|]. repeat split; reflexivity.
Qed.

(** C2 as stated fails: in the scenario the candidate map does not hold A,
    and the report is not the one row A, Stub, 8.0. *)
Lemma scenario_candidate_is_not_A :
  ~ (exists cmap store,
       predict scenario_db (scenario_ores scenario_probs_102) "Some category" "C" 2
       = Returns (CandidateMap cmap store)
       /\ keys cmap = ["A"])
  /\ main scenario_db (scenario_ores scenario_probs_102) "Some category" "C" 2
     <> Returns (table_start "C" ++ nl ++ "|-" ++ nl ++ "| [[A]] || Stub || 8.0"
                   ++ table_end).
Proof.
  split.
  - intros (cmap & store & Hrun & Hkeys).
    vm_compute in Hrun. inversion Hrun; subst. discriminate.
  - vm_compute. discriminate.
Qed.

(** ** An unreachable database, an empty category *)

Lemma wp10_map_known target :
  In target wp10 -> exists idx, dict_get target wp10_map = Some idx.
Proof.
  intros H. simpl in H.
  repeat (destruct H as [<-|H]; [eexists; reflexivity|]). contradiction.
Qed.

(** C5: when the database cannot be reached, [predict] fails: the
    exception raised in [db_connect] leaves [predict], and [main] ends with
    it, having printed nothing.  For a category with no members and a
    target of the scale, [predict] returns the empty candidate map. *)
Theorem unreachable_or_empty db ores category_name target distance :
  (reachable db = false ->
   predict db ores category_name target distance = Raises TypeError
   /\ main db ores category_name target distance = Raises TypeError)
  /\ (reachable db = true ->
      member_rows db (replace " " "_" category_name) = [] ->
      In target wp10 ->
      predict db ores category_name target distance = Returns (CandidateMap [] [])).
Proof.
  split.
  - intros H. unfold main, predict, db_connect. now rewrite H.
  - intros H Hrows Htarget.
    assert (Hres : resolve_revisions db category_name = []).
    { unfold resolve_revisions. now rewrite Hrows. }
    destruct (wp10_map_known _ Htarget) as [idx Hidx].
    unfold predict, db_connect. rewrite H, Hres. cbn [bind negb values map].
    change (get_predictions ores []) with (Returns (mkSession [] 0%nat [])).
    cbn [bind predictions]. now rewrite Hidx.
Qed.

Lemma unreachable_or_empty_witness :
  (predict unreachable_db (scenario_ores scenario_probs_102) "Some category" "C" 2
   = Raises TypeError
   /\ main unreachable_db (scenario_ores scenario_probs_102) "Some category" "C" 2
      = Raises TypeError)
  /\ predict scenario_db (scenario_ores scenario_probs_102) "Another category" "C" 2
     = Returns (CandidateMap [] []).
Proof.
  split.
  - apply (proj1 (unreachable_or_empty unreachable_db _ _ _ _)). reflexivity.
  - apply (proj2 (unreachable_or_empty scenario_db _ _ _ _)).
    + reflexivity.
    + reflexivity.
    + simpl. tauto.
Defined.

(** ** Attempts, retries and waiting *)

(** C6 (the code does otherwise): a batch whose three attempts all get
    status 500 is requested three times in a row with no [time.sleep] in
    between, and stores nothing.  Attempts that get status 200 and a body
    that does not decode are each followed by the wait of half a second. *)
Theorem bad_status_retried_without_wait :
  get_predictions (failing_ores 500) ["101"]
  = Returns (mkSession [] 3 [Get ["101"]; Get ["101"]; Get ["101"]])
  /\ get_predictions (failing_ores 200) ["101"]
     = Returns (mkSession [] 3 [Get ["101"]; Sleep 500;
                                Get ["101"]; Sleep 500;
                                Get ["101"]; Sleep 500]).
Proof. split; reflexivity. Qed.

Section Attempts.
Variable ores : ores_service.
Variable langcode : string.

(** A batch is requested at most [remaining] times, and every request of
    the loop is for that batch. *)
Lemma attempts_bounded remaining subset s :
  exists events,
    trace (attempts ores langcode remaining subset s) = (trace s ++ events)%list
    /\ (List.length (filter is_get events) <= remaining)%nat
    /\ Forall (fun e => e = Get subset \/ e = Sleep 500) events.
Proof.
  revert s. induction remaining as [|n IH]; intros s; cbn [attempts].
  - exists []. rewrite app_nil_r. repeat split; auto.
  - destruct (status_code _ =? 200).
    + destruct (parse_response _ _ _) as [preds [e|]];
        cbn [trace requests predictions].
      * match goal with
        | |- context [attempts ores langcode n subset ?s'] =>
            destruct (IH s') as (events & Htr & Hlen & Hall)
        end.
        exists (Get subset :: Sleep 500 :: events). cbn [trace] in Htr.
        rewrite Htr, <- !app_assoc. repeat split; auto.
        simpl. lia.
      * exists [Get subset]. repeat split; auto. simpl. lia.
    + match goal with
      | |- context [attempts ores langcode n subset ?s'] =>
          destruct (IH s') as (events & Htr & Hlen & Hall)
      end.
      exists (Get subset :: events). cbn [trace] in Htr.
      rewrite Htr, <- app_assoc. repeat split; auto.
      simpl. lia.
Qed.

Lemma parse_response_failed r preds :
  status_code r = 200 ->
  attempt_failed langcode r = true ->
  exists e, parse_response langcode r preds = (preds, Some e).
Proof.
  intros Hstatus. unfold attempt_failed, parse_response, has_key.
  rewrite Hstatus. cbn [negb orb Z.eqb Pos.eqb].
  destruct (json r) as [response|]; [|eauto].
  repeat (match goal with
          | |- context [dict_get ?k ?d] => destruct (dict_get k d); [|eauto]
          end).
  discriminate.
Qed.

(** Attempts answered with a status other than 200 are made one after the
    other: the loop adds no [Sleep] to the trace. *)
Lemma attempts_bad_status_no_wait remaining subset s :
  (forall n, status_code (ores n subset) <> 200) ->
  Forall (fun e => is_get e = true) (trace s) ->
  Forall (fun e => is_get e = true) (trace (attempts ores langcode remaining subset s)).
Proof.
  intros Hbad. revert s. induction remaining as [|n IH]; intros s Hs; cbn [attempts]; auto.
  rewrite (proj2 (Z.eqb_neq _ _) (Hbad _)).
  apply IH. cbn [trace]. apply Forall_app. split; auto.
Qed.

(** Attempts that all fail leave the predictions as they were. *)
Lemma attempts_failed_store_nothing remaining subset s :
  (forall n, attempt_failed langcode (ores n subset) = true) ->
  predictions (attempts ores langcode remaining subset s) = predictions s.
Proof.
  intros Hfail. revert s. induction remaining as [|n IH]; intros s; cbn [attempts]; auto.
  destruct (status_code _ =? 200) eqn:E.
  - apply Z.eqb_eq in E.
    destruct (parse_response_failed _ (predictions s) E (Hfail _)) as [e He].
    cbn [predictions]. rewrite He. now rewrite IH.
  - now rewrite IH.
Qed.

End Attempts.

(** ** The order of floats *)

Ltac compare_cases :=
  repeat match goal with
  | H : context [Z.compare ?x ?y] |- _ => destruct (Z.compare_spec x y)
  | |- context [Z.compare ?x ?y] => destruct (Z.compare_spec x y)
  | H : context [Pos.compare ?x ?y] |- _ => destruct (Pos.compare_spec x y)
  | |- context [Pos.compare ?x ?y] => destruct (Pos.compare_spec x y)
  end.

Ltac sf_solve :=
  cbn [SFcompare CompOpp option_map] in *;
  change (Pos.compare_cont Eq) with Pos.compare in *;
  try congruence;
  compare_cases; cbn [CompOpp] in *; subst; try congruence; try lia.

Lemma SFcompare_opp a b :
  SFcompare b a = option_map CompOpp (SFcompare a b).
Proof.
  destruct a as [[|]|[|]| |[|] ma ea], b as [[|]|[|]| |[|] mb eb]; sf_solve.
Qed.

Lemma SFcompare_trans a b c :
  SFcompare a b = Some Lt -> SFcompare b c = Some Lt -> SFcompare a c = Some Lt.
Proof.
  destruct a as [[|]|[|]| |[|] ma ea], b as [[|]|[|]| |[|] mb eb],
           c as [[|]|[|]| |[|] mc ec]; intros H1 H2; sf_solve.
Qed.

Lemma SFcompare_eq_l a b c :
  SFcompare a b = Some Eq -> SFcompare a c = SFcompare b c.
Proof.
  destruct a as [[|]|[|]| |[|] ma ea], b as [[|]|[|]| |[|] mb eb],
           c as [[|]|[|]| |[|] mc ec]; intros H1; sf_solve.
Qed.

Lemma SFcompare_defined a b :
  a <> S754_nan -> b <> S754_nan -> exists c, SFcompare a b = Some c.
Proof.
  destruct a as [[|]|[|]| |[|] ma ea], b as [[|]|[|]| |[|] mb eb];
    intros Ha Hb; try congruence; cbn [SFcompare]; eauto.
Qed.

Lemma is_nan_false x : is_nan x = false -> Prim2SF x <> S754_nan.
Proof.
  unfold is_nan. rewrite eqb_spec. unfold SFeqb.
  intros H Hn. rewrite Hn in H. discriminate.
Qed.

Section FloatOrder.
Variables x y z : float.

Lemma ltb_false_leb :
  is_nan x = false -> is_nan y = false ->
  (x <? y)%float = false -> (y <=? x)%float = true.
Proof.
  intros Hx Hy. rewrite ltb_spec, leb_spec. unfold SFltb, SFleb.
  rewrite (SFcompare_opp (Prim2SF x) (Prim2SF y)).
  destruct (SFcompare_defined _ _ (is_nan_false _ Hx) (is_nan_false _ Hy)) as [c ->].
  now destruct c.
Qed.

Lemma ltb_leb : (x <? y)%float = true -> (x <=? y)%float = true.
Proof.
  rewrite ltb_spec, leb_spec. unfold SFltb, SFleb.
  now destruct (SFcompare _ _) as [[| |]|].
Qed.

Lemma leb_trans :
  (x <=? y)%float = true -> (y <=? z)%float = true -> (x <=? z)%float = true.
Proof.
  rewrite !leb_spec. unfold SFleb.
  destruct (SFcompare (Prim2SF x) (Prim2SF y)) as [[| |]|] eqn:Exy; try discriminate;
    destruct (SFcompare (Prim2SF y) (Prim2SF z)) as [[| |]|] eqn:Eyz; try discriminate;
    intros _ _.
  - now rewrite (SFcompare_eq_l _ _ _ Exy), Eyz.
  - now rewrite (SFcompare_eq_l _ _ _ Exy), Eyz.
  - pose proof (SFcompare_opp (Prim2SF y) (Prim2SF z)) as Hzy.
    rewrite Eyz in Hzy. cbn in Hzy.
    pose proof (SFcompare_eq_l _ _ (Prim2SF x) Hzy) as Hzx.
    rewrite (SFcompare_opp (Prim2SF x) (Prim2SF z)),
            (SFcompare_opp (Prim2SF x) (Prim2SF y)), Exy in Hzx.
    destruct (SFcompare (Prim2SF x) (Prim2SF z)) as [[| |]|]; cbn in Hzx;
      congruence.
  - now rewrite (SFcompare_trans _ _ _ Exy Eyz).
Qed.

Lemma ltb_eqb_apart :
  (x <? y)%float = true -> (x =? z)%float = true -> (y =? z)%float = false.
Proof.
  rewrite ltb_spec, !eqb_spec. unfold SFltb, SFeqb.
  destruct (SFcompare (Prim2SF x) (Prim2SF y)) as [[| |]|] eqn:Exy; try discriminate.
  destruct (SFcompare (Prim2SF x) (Prim2SF z)) as [[| |]|] eqn:Exz; try discriminate.
  destruct (SFcompare (Prim2SF y) (Prim2SF z)) as [[| |]|] eqn:Eyz; try reflexivity.
  intros _ _.
  pose proof (SFcompare_opp (Prim2SF y) (Prim2SF z)) as Hzy.
  rewrite Eyz in Hzy. cbn in Hzy.
  pose proof (SFcompare_eq_l _ _ (Prim2SF y) Exz) as H.
  congruence.
Qed.

End FloatOrder.

(** ** Sorting in reverse *)

Section SortedReverseFacts.
Context {A : Type} (key : A -> float).

Lemma insert_reverse_perm a l : Permutation (insert_reverse key a l) (a :: l).
Proof.
  induction l as [|b l IH]; simpl; auto.
  destruct (key a <? key b)%float; auto.
  rewrite IH. apply perm_swap.
Qed.

Lemma sorted_reverse_perm l : Permutation (sorted_reverse key l) l.
Proof.
  induction l as [|a l IH]; simpl; auto.
  rewrite insert_reverse_perm. now constructor.
Qed.

Lemma insert_reverse_sorted a l :
  is_nan (key a) = false ->
  Forall (fun b => is_nan (key b) = false) l ->
  StronglySorted (not_before key) l ->
  StronglySorted (not_before key) (insert_reverse key a l).
Proof.
  intros Ha Hl Hs. induction Hs as [|b l Hs IH Hb]; simpl.
  - repeat constructor.
  - inversion Hl as [|? ? Hnb Hl']; subst.
    destruct (key a <? key b)%float eqn:E.
    + constructor; [now apply IH|].
      apply (Permutation_Forall (Permutation_sym (insert_reverse_perm a l))).
      constructor; [|exact Hb].
      unfold not_before. now apply ltb_leb.
    + constructor; [now constructor|].
      assert (Hab : not_before key a b) by (now apply ltb_false_leb).
      constructor; [exact Hab|].
      apply (Forall_impl _ (P := not_before key b)); [|exact Hb].
      intros c Hc. unfold not_before in *. eapply leb_trans; eauto.
Qed.

Lemma sorted_reverse_sorted l :
  Forall (fun b => is_nan (key b) = false) l ->
  StronglySorted (not_before key) (sorted_reverse key l).
Proof.
  induction l as [|a l IH]; intros H; simpl; [constructor|].
  inversion H; subst.
  apply insert_reverse_sorted; auto.
  now apply (Permutation_Forall (Permutation_sym (sorted_reverse_perm l))).
Qed.

Lemma insert_reverse_stable x a l :
  filter (fun b => (key b =? x)%float) (insert_reverse key a l)
  = filter (fun b => (key b =? x)%float) (a :: l).
Proof.
  induction l as [|b l IH]; [reflexivity|].
  cbn [insert_reverse].
  destruct (key a <? key b)%float eqn:E; [|reflexivity].
  cbn [filter] in *. rewrite IH.
  destruct (key a =? x)%float eqn:Ea; [|reflexivity].
  now rewrite (ltb_eqb_apart _ _ _ E Ea).
Qed.

(** Stability: the elements with a key equal to [x] keep their order. *)
Lemma sorted_reverse_stable x l :
  filter (fun b => (key b =? x)%float) (sorted_reverse key l)
  = filter (fun b => (key b =? x)%float) l.
Proof.
  induction l as [|a l IH]; [reflexivity|].
  cbn [sorted_reverse fold_right].
  rewrite insert_reverse_stable. cbn [filter].
  fold (sorted_reverse key l). now rewrite IH.
Qed.

End SortedReverseFacts.

(** ** The report *)

Lemma append_nil_r (a : string) : a ++ "" = a.
Proof. induction a as [|ch a IH]; simpl; congruence. Qed.

Lemma append_assoc (a b c : string) : (a ++ b) ++ c = a ++ (b ++ c).
Proof. induction a as [|ch a IH]; simpl; congruence. Qed.

(** The loop over the sorted candidates appends one row for each, in their
    order. *)
Lemma table_content_rows l content :
  fold_left table_row l content = content ++ table_rows l.
Proof.
  revert content. induction l as [|it l IH]; intros content; cbn [fold_left table_rows fold_right].
  - now rewrite append_nil_r.
  - rewrite IH. unfold table_row. cbn [append]. now rewrite append_assoc.
Qed.

(** C4: the rows of the report follow the candidates sorted by
    [p_above_target]: the sorted sequence is a rearrangement of the
    candidates in which no key is less than a later one, and candidates
    with equal keys are in the order [candidates.items()] gave them.  Keys
    are floats that compare, that is, none is nan. *)
Theorem ranking_sorted_and_stable cmap store target :
  Forall (fun it => is_nan (p_above_target (snd it)) = false)
         (candidate_items cmap store) ->
  build_table (CandidateMap cmap store) target
  = Returns (table_start target ++ table_rows (sorted_candidates cmap store)
               ++ table_end)
  /\ Permutation (sorted_candidates cmap store) (candidate_items cmap store)
  /\ StronglySorted (not_before (fun it => p_above_target (snd it)))
                    (sorted_candidates cmap store)
  /\ forall x,
      filter (fun it => (p_above_target (snd it) =? x)%float)
             (sorted_candidates cmap store)
      = filter (fun it => (p_above_target (snd it) =? x)%float)
               (candidate_items cmap store).
Proof.
  intros Hkeys. split; [|split; [|split]].
  - cbn [build_table]. now rewrite table_content_rows.
  - apply sorted_reverse_perm.
  - now apply sorted_reverse_sorted.
  - intros x. apply (sorted_reverse_stable (fun it => p_above_target (snd it))).
Qed.

Lemma ranking_sorted_and_stable_witness :
  map fst (sorted_candidates tied_candidates tied_store)
  = ["Second_title"; "First_title"; "Third_title"]
  /\ StronglySorted (not_before (fun it => p_above_target (snd it)))
                    (sorted_candidates tied_candidates tied_store)
  /\ map fst (filter (fun it => (p_above_target (snd it) =? 0.25)%float)
                     (sorted_candidates tied_candidates tied_store))
     = ["First_title"; "Third_title"].
Proof.
  destruct (ranking_sorted_and_stable tied_candidates tied_store "C")
    as (_ & _ & Hsorted & Hstable).
  - repeat constructor.
  - split; [reflexivity|]. split; [exact Hsorted|].
    rewrite Hstable. reflexivity.
Defined.

(** ** Rendering *)

Lemma round_half_even_nearest num den :
  0 < den -> 0 <= num ->
  0 <= round_half_even num den
  /\ 2 * Z.abs (num - round_half_even num den * den) <= den.
Proof.
  intros Hden Hnum. unfold round_half_even.
  pose proof (Z.div_mod num den ltac:(lia)) as Hdm.
  pose proof (Z.mod_pos_bound num den Hden) as Hr.
  pose proof (Z.div_pos num den Hnum Hden) as Hq.
  destruct (Z.compare_spec (2 * (num mod den)) den) as [E|E|E];
    [destruct (Z.even (num / den))|..]; split; try lia; nia.
Qed.

Lemma tenths_nearest m e :
  0 <= tenths m e
  /\ (0 <= e -> tenths m e = Zpos m * 2 ^ e * 10)
  /\ (e < 0 -> 2 * Z.abs (Zpos m * 10 - tenths m e * 2 ^ (- e)) <= 2 ^ (- e)).
Proof.
  unfold tenths. destruct (0 <=? e) eqn:E.
  - apply Z.leb_le in E. split; [|split; [reflexivity|lia]].
    pose proof (Z.pow_nonneg 2 e ltac:(lia)). nia.
  - apply Z.leb_gt in E.
    assert (Hden : 0 < 2 ^ (- e)) by (apply Z.pow_pos_nonneg; lia).
    destruct (round_half_even_nearest (Zpos m * 10) (2 ^ (- e)) Hden ltac:(lia)).
    split; [assumption|]. split; [lia|auto].
Qed.

Lemma str_digit d :
  0 <= d < 10 -> str d = String (ascii_of_nat (48 + Z.to_nat d)) "".
Proof.
  intros H.
  assert (Hd : d = 0 \/ d = 1 \/ d = 2 \/ d = 3 \/ d = 4 \/ d = 5 \/ d = 6
               \/ d = 7 \/ d = 8 \/ d = 9) by lia.
  repeat (destruct Hd as [->|Hd]; [reflexivity|]). now subst.
Qed.

Lemma replace_get a b title n :
  String.get n (replace a b title)
  = option_map (fun ch => if Ascii.eqb ch a then b else ch) (String.get n title).
Proof.
  revert n. induction title as [|ch title IH]; intros [|n]; simpl; auto.
Qed.

Lemma candidate_items_In cmap store title pred :
  In (title, pred) (candidate_items cmap store)
  <-> exists r, In (title, r) cmap /\ dict_get r store = Some pred.
Proof.
  unfold candidate_items, items. rewrite in_flat_map. split.
  - intros ([t r] & Hin & Hit). cbn [fst snd] in Hit.
    destruct (dict_get r store) as [p|] eqn:E; [|contradiction].
    destruct Hit as [Heq|[]]. inversion Heq; subst. exists r. auto.
  - intros (r & Hin & Hget). exists (title, r). split; [exact Hin|].
    cbn [fst snd]. rewrite Hget. now left.
Qed.

Lemma candidate_items_keys cmap store :
  (forall title r, In (title, r) cmap -> dict_get r store <> None) ->
  map fst (candidate_items cmap store) = keys cmap.
Proof.
  unfold candidate_items, items.
  induction cmap as [|[title r] cmap IH]; intros H; [reflexivity|].
  cbn [flat_map keys map fst snd].
  destruct (dict_get r store) as [p|] eqn:E.
  - cbn. f_equal. apply IH. intros title' r' Hin. apply (H title' r'). now right.
  - exfalso. apply (H title r); [now left|exact E].
Qed.

(** The rows and the closing line, written out. *)
Lemma table_rows_end l :
  table_rows l ++ table_end
  = fold_right
      (fun it rest =>
         nl ++ "|-" ++ nl ++ "| [[" ++ replace "_" " " (fst it) ++ "]] || "
            ++ rating (snd it) ++ " || "
            ++ format_1f (100 * p_above_target (snd it))%float ++ rest)
      (nl ++ "|}") l.
Proof.
  induction l as [|it l IH]; [reflexivity|].
  cbn [table_rows fold_right]. fold (table_rows l). rewrite <- IH.
  unfold table_row. change ("" ++ nl) with nl.
  now rewrite !append_assoc.
Qed.

(** C9: for every candidate map [build_table] returns a report: the
    header that names the target, one row for each candidate, and the
    closing line; with no candidates, the header and the closing line.  A
    row shows the title with every underscore replaced by a space, the
    rating, and [100 * p_above_target] written with its sign, its integer
    digits, a point and one digit: the number of tenths nearest to the
    value, 0.0 for zero; an infinite value is written inf, one that is not
    a number nan. *)
Theorem report_rendering :
  (forall cmap store target,
      exists ranked,
        Permutation ranked (candidate_items cmap store)
        /\ (forall title pred,
              In (title, pred) ranked
              <-> exists r, In (title, r) cmap /\ dict_get r store = Some pred)
        /\ ((forall title r, In (title, r) cmap -> dict_get r store <> None) ->
            Permutation (map fst ranked) (keys cmap))
        /\ build_table (CandidateMap cmap store) target
           = Returns
               ("{|" ++ nl ++ "!  Title" ++ nl ++ "!  Predicted class" ++ nl
                  ++ "!  P(> " ++ target ++ ")"
                  ++ fold_right
                       (fun it rest =>
                          nl ++ "|-" ++ nl ++ "| [["
                             ++ replace "_" " " (fst it) ++ "]] || "
                             ++ rating (snd it) ++ " || "
                             ++ format_1f (100 * p_above_target (snd it))%float
                             ++ rest)
                       (nl ++ "|}") ranked))
  /\ (forall store target,
        build_table (CandidateMap [] store) target
        = Returns ("{|" ++ nl ++ "!  Title" ++ nl ++ "!  Predicted class" ++ nl
                     ++ "!  P(> " ++ target ++ ")" ++ nl ++ "|}"))
  /\ (forall title n,
        String.get n (replace "_" " " title)
        = option_map (fun ch => if Ascii.eqb ch "_" then " "%char else ch)
                     (String.get n title))
  /\ (forall x sign m e,
        Prim2SF x = S754_finite sign m e ->
        exists t,
          format_1f x
          = (if sign then "-" else "") ++ str (t / 10) ++ "."
              ++ String (ascii_of_nat (48 + Z.to_nat (t mod 10))) ""
          /\ 0 <= t
          /\ (0 <= e -> t = Zpos m * 2 ^ e * 10)
          /\ (e < 0 -> 2 * Z.abs (Zpos m * 10 - t * 2 ^ (- e)) <= 2 ^ (- e)))
  /\ (forall x sign,
        Prim2SF x = S754_zero sign ->
        format_1f x = (if sign then "-0.0" else "0.0"))
  /\ (forall x sign,
        Prim2SF x = S754_infinity sign ->
        format_1f x = (if sign then "-inf" else "inf"))
  /\ (forall x, Prim2SF x = S754_nan -> format_1f x = "nan").
Proof.
  split; [|split; [|split; [|split; [|split; [|split]]]]].
  - intros cmap store target. exists (sorted_candidates cmap store).
    assert (Hperm : Permutation (sorted_candidates cmap store)
                                (candidate_items cmap store))
      by apply sorted_reverse_perm.
    split; [exact Hperm|]. split; [|split].
    + intros title pred. rewrite <- candidate_items_In.
      split; intros Hin.
      * now apply (Permutation_in _ Hperm).
      * now apply (Permutation_in _ (Permutation_sym Hperm)).
    + intros Hrefs. rewrite <- (candidate_items_keys cmap store Hrefs).
      now apply Permutation_map.
    + cbn [build_table]. rewrite table_content_rows.
      change ("" ++ table_rows (sorted_candidates cmap store))
        with (table_rows (sorted_candidates cmap store)).
      unfold table_start. rewrite !append_assoc.
      now rewrite table_rows_end.
  - intros store target. cbn [build_table]. unfold table_start, table_end.
    cbn [sorted_candidates candidate_items items flat_map sorted_reverse
         fold_left fold_right].
    change ("" ++ nl ++ "|}") with (nl ++ "|}").
    now rewrite !append_assoc.
  - intros title n. apply replace_get.
  - intros x sign m e Hx. exists (tenths m e).
    destruct (tenths_nearest m e) as (Hpos & Hexact & Hnear).
    repeat split; auto.
    unfold format_1f. rewrite Hx.
    rewrite (str_digit (tenths m e mod 10)) by (apply Z.mod_pos_bound; lia).
    reflexivity.
  - intros x sign Hx. unfold format_1f. rewrite Hx. now destruct sign.
  - intros x sign Hx. unfold format_1f. rewrite Hx. now destruct sign.
  - intros x Hx. unfold format_1f. now rewrite Hx.
Qed.

(** The report for three candidates, two of them tied. *)
Example tied_report :
  build_table (CandidateMap tied_candidates tied_store) "C"
  = Returns
      ("{|" ++ nl ++ "!  Title" ++ nl ++ "!  Predicted class" ++ nl ++ "!  P(> C)"
       ++ nl ++ "|-" ++ nl ++ "| [[Second title]] || GA || 50.0"
       ++ nl ++ "|-" ++ nl ++ "| [[First title]] || B || 25.0"
       ++ nl ++ "|-" ++ nl ++ "| [[Third title]] || FA || 25.0"
       ++ nl ++ "|}").
Proof. reflexivity. Qed.

(** ** Quality class names *)

(** C7 (the code does otherwise): class names are looked up as they are
    written.  The target "stub", the class Stub in lower case, is not a key
    of [wp10_map], and [predict] raises [KeyError] for it, after the
    database and the service were used. *)
Theorem target_lookup_is_case_sensitive :
  dict_get "Stub" wp10_map = Some 5
  /\ dict_get "stub" wp10_map = None
  /\ predict scenario_db (scenario_ores probs_101) "Some category" "stub" 2
     = Raises KeyError.
Proof. repeat split; reflexivity. Qed.

(** * Further properties of the code *)

(** ** Requests and batches of [get_predictions] *)

Section Requests.
Variable ores : ores_service.
Variable langcode : string.

Lemma attempts_counts n subset s :
  exists g sl,
    requests (attempts ores langcode n subset s) = (requests s + g)%nat
    /\ gets (attempts ores langcode n subset s) = (gets s + g)%nat
    /\ sleeps (attempts ores langcode n subset s) = (sleeps s + sl)%nat
    /\ (sl <= g <= n)%nat /\ (0 < n -> 0 < g)%nat.
Proof.
  revert s. induction n as [|n IH]; intros s; cbn [attempts].
  - exists 0%nat, 0%nat. repeat split; lia.
  - destruct (status_code _ =? 200).
    + destruct (parse_response _ _ _) as [preds [e|]]; cbn [trace requests predictions].
      * match goal with
        | |- context [attempts ores langcode n subset ?s'] =>
            destruct (IH s') as (g & sl & Hr & Hg & Hs & Hle & _)
        end.
        exists (S g), (S sl). rewrite Hr, Hg, Hs. unfold gets, sleeps. cbn [trace requests].
        rewrite !filter_app, !length_app. cbn. repeat split; lia.
      * exists 1%nat, 0%nat. unfold gets, sleeps. cbn [trace requests].
        rewrite !filter_app, !length_app. cbn. repeat split; lia.
    + match goal with
      | |- context [attempts ores langcode n subset ?s'] =>
          destruct (IH s') as (g & sl & Hr & Hg & Hs & Hle & _)
      end.
      exists (S g), sl. rewrite Hr, Hg, Hs. unfold gets, sleeps. cbn [trace requests].
      rewrite !filter_app, !length_app. cbn. repeat split; lia.
Qed.

Lemma batches_counts fuel rev_ids i s s' :
  batches ores langcode fuel rev_ids i s = Returns s' ->
  exists g sl,
    requests s' = (requests s + g)%nat
    /\ gets s' = (gets s + g)%nat
    /\ sleeps s' = (sleeps s + sl)%nat
    /\ (sl <= g)%nat
    /\ ((List.length rev_ids - i + 49) / 50 <= g
        <= 3 * ((List.length rev_ids - i + 49) / 50))%nat.
Proof.
  revert i s. induction fuel as [|fuel IH]; intros i s; cbn [batches];
    destruct (i <? List.length rev_ids)%nat eqn:E; try discriminate.
  - intros H. inversion H; subst. apply Nat.ltb_ge in E.
    exists 0%nat, 0%nat.
    replace (List.length rev_ids - i + 49)%nat with 49%nat by lia.
    cbn. repeat split; lia.
  - intros H. apply IH in H. destruct H as (g & sl & Hr & Hg & Hs & Hle & Hb).
    destruct (attempts_counts max_url_attempts
                (firstn iter_size (skipn i rev_ids)) s)
      as (g0 & sl0 & Hr0 & Hg0 & Hs0 & Hle0 & Hpos0).
    specialize (Hpos0 ltac:(unfold max_url_attempts; lia)).
    unfold max_url_attempts, iter_size in *. apply Nat.ltb_lt in E.
    exists (g0 + g)%nat, (sl0 + sl)%nat.
    assert (Hstep : ((List.length rev_ids - i + 49) / 50
                     = 1 + (List.length rev_ids - (i + 50) + 49) / 50)%nat).
    { destruct (Nat.le_gt_cases 50 (List.length rev_ids - i)) as [Hbig|Hsmall].
      - replace (List.length rev_ids - i + 49)%nat
          with (1 * 50 + (List.length rev_ids - (i + 50) + 49))%nat by lia.
        rewrite Nat.div_add_l by lia. reflexivity.
      - replace (List.length rev_ids - (i + 50) + 49)%nat with 49%nat by lia.
        replace (List.length rev_ids - i + 49)%nat
          with (1 * 50 + (List.length rev_ids - i - 1))%nat by lia.
        rewrite Nat.div_add_l by lia.
        rewrite (Nat.div_small (List.length rev_ids - i - 1) 50) by lia.
        reflexivity. }
    rewrite Hstep. repeat split; lia.
  - intros H. inversion H; subst. apply Nat.ltb_ge in E.
    exists 0%nat, 0%nat.
    replace (List.length rev_ids - i + 49)%nat with 49%nat by lia.
    cbn. repeat split; lia.
Qed.

End Requests.

(** X1: when [get_predictions] returns, with a service that answers every
    request, it has made at least one and at most three requests for each
    batch of fifty revision ids, none for an empty list, and has slept at
    most once for each request. *)
Theorem requests_bounded ores rev_ids s :
  get_predictions ores rev_ids = Returns s ->
  requests s = gets s
  /\ (n_batches rev_ids <= requests s <= max_url_attempts * n_batches rev_ids)%nat
  /\ (rev_ids = [] -> requests s = 0%nat)
  /\ (sleeps s <= requests s)%nat.
Proof.
  intros Hs.
  apply batches_counts in Hs.
  destruct Hs as (g & sl & Hr & Hg & Hsl & Hle & Hb).
  unfold gets, sleeps in *. cbn [trace requests filter List.length] in *.
  unfold n_batches, max_url_attempts, iter_size.
  rewrite Nat.sub_0_r in Hb. cbn [Nat.sub].
  assert (Hempty : rev_ids = [] -> requests s = 0%nat).
  { intros ->. cbn [List.length] in Hb.
    change ((0 + 49) / 50)%nat with 0%nat in Hb. lia. }
  repeat split; try lia. exact Hempty.
Qed.

Lemma requests_bounded_witness :
  exists s,
    get_predictions (scenario_ores scenario_probs_102) ["101"; "102"] = Returns s
    /\ requests s = gets s
    /\ (1 <= requests s <= 3)%nat
    /\ (sleeps s <= requests s)%nat.
Proof.
  destruct (get_predictions_returns (scenario_ores scenario_probs_102) ["101"; "102"]) as [s Hs].
  exists s. split; [exact Hs|].
  destruct (requests_bounded (scenario_ores scenario_probs_102) ["101"; "102"] s Hs)
    as (Hg & Hb & _ & Hsl).
  repeat split; try assumption;
    change (n_batches ["101"; "102"]) with 1%nat in Hb;
    change max_url_attempts with 3%nat in Hb; lia.
Defined.

Section Batches.
Variable ores : ores_service.
Variable langcode : string.

Lemma attempts_first_get n subset s :
  exists events,
    trace (attempts ores langcode (S n) subset s)
    = (trace s ++ Get subset :: events)%list.
Proof.
  cbn [attempts].
  destruct (status_code _ =? 200).
  - destruct (parse_response _ _ _) as [preds [e|]]; cbn [trace requests predictions].
    + match goal with
      | |- context [attempts ores langcode n subset ?s'] =>
          destruct (attempts_bounded ores langcode n subset s') as (events & Htr & _)
      end.
      rewrite Htr. cbn [trace]. rewrite <- !app_assoc. eexists. reflexivity.
    + exists []. reflexivity.
  - match goal with
    | |- context [attempts ores langcode n subset ?s'] =>
        destruct (attempts_bounded ores langcode n subset s') as (events & Htr & _)
    end.
    rewrite Htr. cbn [trace]. rewrite <- !app_assoc. eexists. reflexivity.
Qed.

Lemma batches_trace_incl fuel rev_ids i s s' :
  batches ores langcode fuel rev_ids i s = Returns s' ->
  incl (trace s) (trace s').
Proof.
  revert i s. induction fuel as [|fuel IH]; intros i s; cbn [batches];
    destruct (i <? List.length rev_ids)%nat; try discriminate;
    try (intros H; inversion H; subst; apply incl_refl).
  intros H. apply IH in H.
  destruct (attempts_bounded ores langcode max_url_attempts
              (firstn iter_size (skipn i rev_ids)) s) as (events & Htr & _).
  rewrite Htr in H. intros e He. apply H, in_or_app. now left.
Qed.

(** Every request is for one of the batches, and every wait is the half
    second. *)
Lemma batches_events fuel rev_ids k s s' :
  batches ores langcode fuel rev_ids (k * iter_size) s = Returns s' ->
  Forall (fun e => match e with
                   | Get subset =>
                       exists k', (k' * iter_size < List.length rev_ids)%nat
                                  /\ subset = batch rev_ids k'
                   | Sleep ms => ms = 500
                   end) (trace s) ->
  Forall (fun e => match e with
                   | Get subset =>
                       exists k', (k' * iter_size < List.length rev_ids)%nat
                                  /\ subset = batch rev_ids k'
                   | Sleep ms => ms = 500
                   end) (trace s').
Proof.
  revert k s. induction fuel as [|fuel IH]; intros k s; cbn [batches];
    destruct (k * iter_size <? List.length rev_ids)%nat eqn:E; try discriminate;
    intros H Hs; try (inversion H; subst; exact Hs).
  replace (k * iter_size + iter_size)%nat with (S k * iter_size)%nat in H by lia.
  apply (IH (S k) _ H).
  destruct (attempts_bounded ores langcode max_url_attempts
              (firstn iter_size (skipn (k * iter_size) rev_ids)) s)
    as (events & Htr & _ & Hall).
  rewrite Htr. apply Forall_app. split; [exact Hs|].
  apply (Forall_impl _ (P := fun e => e = Get (firstn iter_size (skipn (k * iter_size) rev_ids))
                                     \/ e = Sleep 500)); [|exact Hall].
  intros e [->| ->]; [|reflexivity].
  exists k. split; [now apply Nat.ltb_lt|reflexivity].
Qed.

(** Every batch is requested. *)
Lemma batches_cover fuel rev_ids k s s' :
  batches ores langcode fuel rev_ids (k * iter_size) s = Returns s' ->
  forall k', (k <= k')%nat -> (k' * iter_size < List.length rev_ids)%nat ->
             In (Get (batch rev_ids k')) (trace s').
Proof.
  revert k s. induction fuel as [|fuel IH]; intros k s; cbn [batches];
    destruct (k * iter_size <? List.length rev_ids)%nat eqn:E; try discriminate.
  - intros H k' Hk Hlt. apply Nat.ltb_ge in E. unfold iter_size in *. nia.
  - intros H k' Hk Hlt.
    replace (k * iter_size + iter_size)%nat with (S k * iter_size)%nat in H by lia.
    destruct (Nat.eq_dec k k') as [<-|Hne].
    + apply (batches_trace_incl _ _ _ _ _ H).
      destruct (attempts_first_get 2 (firstn iter_size (skipn (k * iter_size) rev_ids)) s)
        as (events & Htr).
      change max_url_attempts with 3%nat. rewrite Htr.
      apply in_or_app. right. now left.
    + apply (IH (S k) _ H); [lia|exact Hlt].
  - intros H k' Hk Hlt. apply Nat.ltb_ge in E. unfold iter_size in *. nia.
Qed.

End Batches.

Lemma batch_length rev_ids k :
  (k * iter_size < List.length rev_ids)%nat ->
  (0 < List.length (batch rev_ids k) <= iter_size)%nat.
Proof.
  intros H. unfold batch. rewrite length_firstn, length_skipn.
  unfold iter_size in *. lia.
Qed.

Lemma batch_nth rev_ids j id :
  nth_error rev_ids j = Some id -> In id (batch rev_ids (j / iter_size)).
Proof.
  intros H. unfold batch.
  apply (nth_error_In _ (j mod iter_size)).
  rewrite nth_error_firstn.
  pose proof (Nat.mod_upper_bound j iter_size ltac:(unfold iter_size; lia)) as Hm.
  destruct (Nat.ltb_spec (j mod iter_size) iter_size) as [_|Hge]; [|lia].
  rewrite nth_error_skipn.
  replace (j / iter_size * iter_size + j mod iter_size)%nat with j; [exact H|].
  rewrite (Nat.div_mod_eq j iter_size) at 1. lia.
Qed.

(** X2: the requests of [get_predictions] are for the slices of fifty of
    its list, in the positions they have there: each request names between
    one and fifty revision ids, and every revision id of the list is named
    in some request; every wait is of half a second. *)
Theorem requests_are_batches ores rev_ids s :
  get_predictions ores rev_ids = Returns s ->
  (forall subset, In (Get subset) (trace s) ->
     exists k, subset = batch rev_ids k
               /\ (0 < List.length subset <= iter_size)%nat)
  /\ (forall ms, In (Sleep ms) (trace s) -> ms = 500)
  /\ (forall id, In id rev_ids ->
        exists subset, In (Get subset) (trace s) /\ In id subset).
Proof.
  intros Hs. unfold get_predictions in Hs.
  pose proof (batches_events ores _ _ rev_ids 0 _ _ Hs (Forall_nil _)) as Hev.
  rewrite Forall_forall in Hev.
  split; [|split].
  - intros subset Hin. destruct (Hev _ Hin) as (k & Hk & ->).
    exists k. split; [reflexivity|now apply batch_length].
  - intros ms Hin. apply (Hev _ Hin).
  - intros id Hin. apply In_nth_error in Hin. destruct Hin as [j Hj].
    exists (batch rev_ids (j / iter_size)). split; [|now apply batch_nth].
    apply (batches_cover ores _ _ rev_ids 0 _ _ Hs); [lia|].
    assert (j < List.length rev_ids)%nat by (apply nth_error_Some; congruence).
    pose proof (Nat.div_mod_eq j iter_size). unfold iter_size in *. lia.
Qed.

(** ** What [get_predictions] stores *)

Lemma parse_response_scores langcode r preds :
  parse_response langcode r preds
  = match json r with
    | None => (preds, Some ValueError)
    | Some _ =>
        match scores_of langcode r with
        | None => (preds, Some KeyError)
        | Some revid_pred_map => store_scores revid_pred_map preds
        end
    end.
Proof.
  unfold parse_response, scores_of. destruct (json r) as [response|]; [|reflexivity].
  repeat (match goal with
          | |- context [dict_get ?k ?d] => destruct (dict_get k d); [|reflexivity]
          end).
  reflexivity.
Qed.

Lemma store_scores_complete its preds :
  forallb complete its = true -> snd (store_scores its preds) = None.
Proof.
  revert preds. induction its as [|[revid sd] its IH]; intros preds H; [reflexivity|].
  cbn [forallb] in H. apply andb_true_iff in H. destruct H as [Hc H].
  unfold complete, entry_prediction in Hc. cbn [fst snd] in Hc. cbn [store_scores].
  destruct (sd_prediction sd); [|discriminate].
  destruct (sd_probability sd); [|discriminate].
  now apply IH.
Qed.

Lemma store_scores_lookup its preds revid :
  forallb complete its = true ->
  NoDup (keys its) ->
  dict_get revid (fst (store_scores its preds))
  = match dict_get revid its with
    | Some sd => entry_prediction revid sd
    | None => dict_get revid preds
    end.
Proof.
  revert preds. induction its as [|[k sd] its IH]; intros preds H Hnd; [reflexivity|].
  cbn [forallb] in H. apply andb_true_iff in H. destruct H as [Hc H].
  inversion Hnd as [|? ? Hk Hnd']; subst.
  unfold complete, entry_prediction in Hc. cbn [fst snd] in Hc.
  cbn [store_scores dict_get].
  destruct (sd_prediction sd) as [r|] eqn:Er; [|discriminate].
  destruct (sd_probability sd) as [p|] eqn:Ep; [|discriminate].
  rewrite IH by assumption.
  destruct (String.eqb revid k) eqn:E.
  - apply String.eqb_eq in E. subst k.
    apply dict_get_None in Hk. rewrite Hk, dict_get_set_same.
    unfold entry_prediction. now rewrite Er, Ep.
  - destruct (dict_get revid its); [reflexivity|].
    apply dict_get_set_other. intros ->. now rewrite String.eqb_refl in E.
Qed.

(** An entry without one of its keys ends the loop with [KeyError]; what
    the entries before it stored stays. *)
Lemma store_scores_partial good bad rest preds :
  forallb complete good = true ->
  complete bad = false ->
  store_scores (good ++ bad :: rest) preds
  = (fst (store_scores good preds), Some KeyError).
Proof.
  revert preds. induction good as [|[k sd] good IH]; intros preds H Hbad.
  - destruct bad as [k sd]. unfold complete, entry_prediction in Hbad.
    cbn [fst snd] in Hbad. cbn [app store_scores fst].
    destruct (sd_prediction sd); [|reflexivity].
    destruct (sd_probability sd); [discriminate|reflexivity].
  - cbn [forallb] in H. apply andb_true_iff in H. destruct H as [Hc H].
    unfold complete, entry_prediction in Hc. cbn [fst snd] in Hc.
    cbn [app store_scores].
    destruct (sd_prediction sd); [|discriminate].
    destruct (sd_probability sd); [|discriminate].
    now apply IH.
Qed.

Lemma batches_past_end ores langcode fuel rev_ids i s :
  (List.length rev_ids <= i)%nat ->
  batches ores langcode fuel rev_ids i s = Returns s.
Proof.
  intros H. apply Nat.ltb_ge in H. destruct fuel; cbn [batches]; now rewrite H.
Qed.

Lemma get_predictions_single ores rev_ids :
  (0 < List.length rev_ids <= iter_size)%nat ->
  get_predictions ores rev_ids
  = Returns (attempts ores (lang ++ "wiki") max_url_attempts rev_ids
                      (mkSession [] 0%nat [])).
Proof.
  intros [Hpos Hle]. unfold get_predictions.
  destruct rev_ids as [|id rest]; [simpl in Hpos; lia|].
  cbn [List.length batches Nat.ltb Nat.leb skipn].
  rewrite firstn_all2 by exact Hle.
  apply batches_past_end. cbn [Nat.add]. exact Hle.
Qed.

(** X3: a list of at most fifty revision ids whose first request is
    answered with status 200 and scores that all have a prediction and
    probabilities takes one request and no wait; the result holds, for each
    revision id of the response and no other, the prediction with the
    rating and probabilities of the response and [p_above_target] 0.0. *)
Theorem single_batch_answered ores rev_ids revid_pred_map :
  (0 < List.length rev_ids <= iter_size)%nat ->
  status_code (ores 0%nat rev_ids) = 200 ->
  scores_of (lang ++ "wiki") (ores 0%nat rev_ids) = Some revid_pred_map ->
  forallb complete revid_pred_map = true ->
  NoDup (keys revid_pred_map) ->
  exists s,
    get_predictions ores rev_ids = Returns s
    /\ requests s = 1%nat
    /\ trace s = [Get rev_ids]
    /\ forall revid,
        dict_get revid (predictions s)
        = match dict_get revid revid_pred_map with
          | Some sd => entry_prediction revid sd
          | None => None
          end.
Proof.
  intros Hlen Hstatus Hscores Hcomplete Hnd.
  rewrite (get_predictions_single _ _ Hlen).
  change max_url_attempts with 3%nat. cbn [attempts requests predictions trace].
  rewrite Hstatus. cbn [Z.eqb Pos.eqb].
  rewrite parse_response_scores, Hscores.
  assert (Hjson : json (ores 0%nat rev_ids) <> None).
  { intros Hn. unfold scores_of in Hscores. now rewrite Hn in Hscores. }
  destruct (json (ores 0%nat rev_ids)); [|congruence].
  pose proof (store_scores_complete revid_pred_map [] Hcomplete) as Hnone.
  pose proof (fun revid => store_scores_lookup revid_pred_map [] revid Hcomplete Hnd) as Hget.
  destruct (store_scores revid_pred_map []) as [preds e]. cbn [fst snd] in *. subst e.
  eexists. split; [reflexivity|]. cbn [requests trace predictions app].
  repeat split. exact Hget.
Qed.

(** X4: when each of the three answers to a batch has status 200 and scores
    in which an entry lacks its prediction or its probabilities, the batch
    is requested three times with a wait after each, and the predictions of
    the entries before the incomplete one are in the result all the same;
    those of the entries after it are not. *)
Theorem failed_batch_keeps_entries ores rev_ids good bad rest :
  (0 < List.length rev_ids <= iter_size)%nat ->
  (forall n, status_code (ores n rev_ids) = 200
             /\ scores_of (lang ++ "wiki") (ores n rev_ids)
                = Some (good ++ bad :: rest)%list) ->
  forallb complete good = true ->
  complete bad = false ->
  NoDup (keys good) ->
  exists s,
    get_predictions ores rev_ids = Returns s
    /\ requests s = 3%nat
    /\ trace s = [Get rev_ids; Sleep 500; Get rev_ids; Sleep 500;
                  Get rev_ids; Sleep 500]
    /\ forall revid,
        dict_get revid (predictions s)
        = match dict_get revid good with
          | Some sd => entry_prediction revid sd
          | None => None
          end.
Proof.
  intros Hlen Hfail Hgood Hbad Hnd.
  rewrite (get_predictions_single _ _ Hlen).
  assert (Hparse : forall n preds,
             parse_response (lang ++ "wiki") (ores n rev_ids) preds
             = (fst (store_scores good preds), Some KeyError)).
  { intros n preds. destruct (Hfail n) as [_ Hscores].
    rewrite parse_response_scores, Hscores.
    assert (Hjson : json (ores n rev_ids) <> None).
    { intros Hn. unfold scores_of in Hscores. now rewrite Hn in Hscores. }
    destruct (json (ores n rev_ids)); [|congruence].
    now apply store_scores_partial. }
  change max_url_attempts with 3%nat. cbn [attempts requests predictions trace].
  rewrite !(proj1 (Hfail _)). cbn [Z.eqb Pos.eqb].
  rewrite !Hparse. cbn [attempts requests predictions trace].
  eexists. split; [reflexivity|]. cbn [requests trace predictions app].
  repeat split.
  intros revid. rewrite !store_scores_lookup by assumption.
  now destruct (dict_get revid good).
Qed.

Lemma store_scores_from (R : string -> Prediction -> Prop) its preds :
  (forall r sd p, In (r, sd) its -> entry_prediction r sd = Some p -> R r p) ->
  (forall r p, dict_get r preds = Some p -> R r p) ->
  forall r p, dict_get r (fst (store_scores its preds)) = Some p -> R r p.
Proof.
  revert preds. induction its as [|[k sd] its IH]; intros preds Hits Hpreds; [exact Hpreds|].
  cbn [store_scores].
  destruct (sd_prediction sd) as [rt|] eqn:Er; [|exact Hpreds].
  destruct (sd_probability sd) as [pb|] eqn:Ep; [|exact Hpreds].
  apply IH.
  - intros r sd' p Hin. apply Hits. now right.
  - intros r p. rewrite dict_get_set.
    destruct (String.eqb k r) eqn:E; [|apply Hpreds].
    apply String.eqb_eq in E. subst r. intros Hp. inversion Hp; subst p.
    apply (Hits k sd); [now left|].
    unfold entry_prediction. now rewrite Er, Ep.
Qed.

Section Provenance.
Variable ores : ores_service.
Variable langcode : string.

Lemma received_later preds rq tr ext n :
  received ores langcode (mkSession preds rq tr) ->
  List.length (filter is_get (tr ++ ext)) = n ->
  received ores langcode (mkSession preds n (tr ++ ext)).
Proof.
  intros [_ H] Hn. split; [exact Hn|].
  intros r p Hget. destruct (H r p Hget) as (k & sub & m & sd & Hk & Hrest).
  exists k, sub, m, sd. cbn [trace] in *. split; [|exact Hrest].
  rewrite filter_app, nth_error_app1; [exact Hk|].
  apply nth_error_Some. rewrite Hk. discriminate.
Qed.

Lemma received_get s subset :
  received ores langcode s ->
  received ores langcode
    (mkSession (predictions s) (S (requests s)) (trace s ++ [Get subset]))
  /\ nth_error (filter is_get (trace s ++ [Get subset])) (requests s)
     = Some (Get subset).
Proof.
  intros Hs. destruct s as [preds rq tr]. cbn [predictions requests trace].
  pose proof Hs as [Hlen _]. cbn [trace requests] in Hlen.
  assert (Hn : List.length (filter is_get (tr ++ [Get subset])) = S rq).
  { rewrite filter_app, length_app. cbn. lia. }
  split; [exact (received_later preds rq tr _ _ Hs Hn)|].
  rewrite filter_app, nth_error_app2 by lia.
  rewrite Hlen, Nat.sub_diag. reflexivity.
Qed.

Lemma received_sleep s ms :
  received ores langcode s ->
  received ores langcode
    (mkSession (predictions s) (requests s) (trace s ++ [Sleep ms])).
Proof.
  intros Hs. destruct s as [preds rq tr]. cbn [predictions requests trace].
  apply (received_later preds rq tr _ _ Hs).
  destruct Hs as [Hlen _]. cbn [trace requests] in Hlen.
  rewrite filter_app, length_app. cbn. lia.
Qed.

Lemma attempts_received n subset s :
  received ores langcode s -> received ores langcode (attempts ores langcode n subset s).
Proof.
  revert s. induction n as [|n IH]; intros s Hs; cbn [attempts]; [exact Hs|].
  destruct (received_get s subset Hs) as [Hold Hnth].
  assert (Hstep : status_code (ores (requests s) subset) = 200 ->
                  received ores langcode (mkSession
                    (fst (parse_response langcode (ores (requests s) subset)
                                         (predictions s)))
                    (S (requests s)) (trace s ++ [Get subset]))).
  { intros Hstatus. rewrite parse_response_scores.
    destruct (json (ores (requests s) subset)); [|exact Hold].
    destruct (scores_of langcode (ores (requests s) subset)) as [m|] eqn:Em;
      [|exact Hold].
    split; [exact (proj1 Hold)|].
    intros r1 p1. cbn [predictions requests trace].
    apply (store_scores_from
             (fun r p => exists n subset0 revid_pred_map sd,
                  nth_error (filter is_get (trace s ++ [Get subset])) n
                  = Some (Get subset0)
                  /\ status_code (ores n subset0) = 200
                  /\ scores_of langcode (ores n subset0) = Some revid_pred_map
                  /\ In (r, sd) revid_pred_map
                  /\ entry_prediction r sd = Some p)).
    - intros r0 sd p0 Hin He.
      exists (requests s), subset, m, sd. repeat split; auto.
    - intros r0 p0 Hget. apply (proj2 Hold r0 p0 Hget). }
  destruct (status_code (ores (requests s) subset) =? 200) eqn:E.
  - apply Z.eqb_eq in E. specialize (Hstep E).
    cbn [predictions requests trace].
    destruct (parse_response langcode (ores (requests s) subset) (predictions s))
      as [preds [e|]]; cbn [fst] in Hstep.
    + apply IH. apply (received_sleep _ 500 Hstep).
    + apply Hstep.
  - apply IH, Hold.
Qed.

End Provenance.

(** X5: [get_predictions] stores nothing of its own: every prediction it
    returns has the rating and the probabilities of an entry, under the
    same revision id, of the response with status 200 that the service
    gave to one of the requests made, the [n]-th, which was for a batch of
    the list; it has that revision id as [rev_id], and [p_above_target]
    0.0. *)
Theorem predictions_come_from_responses ores rev_ids s r p :
  get_predictions ores rev_ids = Returns s ->
  dict_get r (predictions s) = Some p ->
  exists n k revid_pred_map sd,
    nth_error (filter is_get (trace s)) n = Some (Get (batch rev_ids k))
    /\ (n < requests s)%nat
    /\ status_code (ores n (batch rev_ids k)) = 200
    /\ scores_of (lang ++ "wiki") (ores n (batch rev_ids k)) = Some revid_pred_map
    /\ In (r, sd) revid_pred_map
    /\ sd_prediction sd = Some (rating p)
    /\ sd_probability sd = Some (probs p)
    /\ rev_id p = r
    /\ p_above_target p = 0.0%float.
Proof.
  intros Hs Hget. unfold get_predictions in Hs.
  pose proof (batches_events ores _ _ rev_ids 0 _ _ Hs (Forall_nil _)) as Hev.
  rewrite Forall_forall in Hev.
  apply (batches_invariant ores _ (received ores (lang ++ "wiki"))) in Hs.
  - destruct Hs as [Hlen Hs].
    destruct (Hs r p Hget) as (n & subset & m & sd & Hn & Hst & Hsc & Hin & He).
    assert (Hlt : (n < requests s)%nat).
    { rewrite <- Hlen. apply nth_error_Some. rewrite Hn. discriminate. }
    assert (Htr : In (Get subset) (trace s)).
    { apply nth_error_In in Hn. apply filter_In in Hn. apply Hn. }
    destruct (Hev _ Htr) as (k & _ & ->).
    exists n, k, m, sd. unfold entry_prediction in He.
    destruct (sd_prediction sd); [|discriminate].
    destruct (sd_probability sd); [|discriminate].
    inversion He; subst p. cbn. repeat split; auto.
  - intros n subset s0. apply attempts_received.
  - split; [reflexivity|]. intros r0 p0 H0. discriminate.
Qed.

(** ** Outcomes of the candidate loop *)

Lemma sum_probs_missing acc classes ps :
  forallb (has_key ps) classes = false -> sum_probs acc classes ps = None.
Proof.
  revert acc. induction classes as [|c classes IH]; intros acc H; [discriminate|].
  cbn [forallb sum_probs] in *. unfold has_key in H at 1.
  destruct (dict_get c ps); [|reflexivity]. now apply IH.
Qed.

Lemma usable_same_fields t d p p' :
  same_fields p p' -> usable t d p' = usable t d p.
Proof.
  intros (_ & Hr & Hp). unfold usable. now rewrite Hr, Hp.
Qed.

Lemma forallb_pointwise {A : Type} (f g : A -> bool) (l : list A) :
  (forall a, f a = g a) -> forallb f l = forallb g l.
Proof.
  intros H. induction l as [|a l IH]; [reflexivity|]. cbn. now rewrite H, IH.
Qed.

Lemma all_usable_set t d store r p p' pairs :
  dict_get r store = Some p -> same_fields p p' ->
  all_usable t d (dict_set r p' store) pairs = all_usable t d store pairs.
Proof.
  intros Hget Hsame. unfold all_usable. apply forallb_pointwise. intros it.
  rewrite dict_get_set. destruct (String.eqb r (str (snd it))) eqn:E; [|reflexivity].
  apply String.eqb_eq in E. rewrite <- E, Hget.
  now apply usable_same_fields.
Qed.

Lemma selected_set t d store r p p' it :
  dict_get r store = Some p -> same_fields p p' ->
  selected t d (dict_set r p' store) it = selected t d store it.
Proof.
  intros Hget Hsame. unfold selected.
  rewrite dict_get_set. destruct (String.eqb r (str (snd it))) eqn:E; [|reflexivity].
  apply String.eqb_eq in E. rewrite <- E, Hget.
  now apply passes_same_fields.
Qed.

(** The loop returns when every prediction it meets is usable, and raises
    [KeyError] otherwise. *)
Lemma candidate_loop_outcome t d pairs :
  0 <= t < 6 ->
  forall store cmap,
    if all_usable t d store pairs
    then exists cmap' store',
        candidate_loop t d pairs store cmap = Returns (CandidateMap cmap' store')
    else candidate_loop t d pairs store cmap = Raises KeyError.
Proof.
  intros Ht. induction pairs as [|[t0 r0] pairs IH]; intros store cmap.
  - cbn. eauto.
  - rewrite candidate_loop_step by exact Ht.
    unfold all_usable. cbn [forallb snd]. fold (all_usable t d store pairs).
    destruct (dict_get (str r0) store) as [p0|] eqn:E0; [|apply IH].
    unfold usable, passes.
    destruct (dict_get (rating p0) wp10_map) as [idx|] eqn:Ei; [|reflexivity].
    destruct (t - idx >=? d) eqn:Ep; [|apply IH].
    destruct (forallb (has_key (probs p0)) (firstn (Z.to_nat t) wp10)) eqn:Ef.
    + destruct (sum_probs_defined (p_above_target p0) _ _ Ef) as [x ->].
      cbn [andb].
      rewrite <- (all_usable_set t d store (str r0) p0 (set_p_above_target p0 x) pairs
                    E0 (same_fields_set p0 x)).
      apply IH.
    + now rewrite (sum_probs_missing _ _ _ Ef).
Qed.

Lemma keys_dict_set_absent {V : Type} k (v : V) d :
  dict_get k d = None -> keys (dict_set k v d) = (keys d ++ [k])%list.
Proof.
  induction d as [|[k' v'] d IH]; cbn; [reflexivity|].
  destruct (String.eqb k k'); [discriminate|]. intros H. cbn. f_equal. now apply IH.
Qed.

(** The candidate map gets the titles the loop takes, in their order. *)
Lemma candidate_loop_keys t d pairs :
  0 <= t < 6 ->
  NoDup (map fst pairs) ->
  forall store cmap cmap' store',
    (forall title, In title (map fst pairs) -> dict_get title cmap = None) ->
    candidate_loop t d pairs store cmap = Returns (CandidateMap cmap' store') ->
    keys cmap' = (keys cmap ++ map fst (filter (selected t d store) pairs))%list.
Proof.
  intros Ht. induction pairs as [|[t0 r0] pairs IH];
    intros Hnd store cmap cmap' store' Hfresh Hloop.
  - cbn in Hloop. inversion Hloop; subst. cbn. now rewrite app_nil_r.
  - rewrite candidate_loop_step in Hloop by exact Ht.
    cbn [map fst] in Hnd, Hfresh. inversion Hnd as [|? ? Hnew Hnd']; subst.
    assert (Hrest : forall title, In title (map fst pairs) -> dict_get title cmap = None).
    { intros title Hin. apply Hfresh. now right. }
    cbn [filter]. unfold selected at 1. cbn [snd].
    destruct (dict_get (str r0) store) as [p0|] eqn:E0; [|exact (IH Hnd' store cmap cmap' store' Hrest Hloop)].
    destruct (dict_get (rating p0) wp10_map) as [idx|] eqn:Ei; [|discriminate].
    destruct (passes t d p0) eqn:Ep; [|exact (IH Hnd' store cmap cmap' store' Hrest Hloop)].
    destruct (sum_probs _ _ _) as [x|]; [|discriminate].
    apply (IH Hnd') in Hloop.
    + rewrite Hloop, keys_dict_set_absent by (apply Hfresh; now left).
      rewrite <- app_assoc. cbn [map fst app]. do 3 f_equal.
      apply filter_ext. intros it.
      apply (selected_set t d store (str r0) p0 _ it E0 (same_fields_set p0 x)).
    + intros title Hin. rewrite dict_get_set_other; [now apply Hrest|].
      intros ->. contradiction.
Qed.

(** The loop adds the probabilities above the target to a prediction that
    passes the filter once for each pair that refers to it. *)
Lemma candidate_loop_sums t d pairs :
  0 <= t < 6 ->
  forall store cmap cmap' store',
    candidate_loop t d pairs store cmap = Returns (CandidateMap cmap' store') ->
    forall r p,
      dict_get r store = Some p ->
      passes t d p = true ->
      exists p',
        dict_get r store' = Some p'
        /\ add_sums (count_occ string_dec (map (fun it => str (snd it)) pairs) r)
                    (p_above_target p) (firstn (Z.to_nat t) wp10) (probs p)
           = Some (p_above_target p').
Proof.
  intros Ht. induction pairs as [|[t0 r0] pairs IH];
    intros store cmap cmap' store' Hloop r p Hget Hpass.
  - cbn in Hloop. inversion Hloop; subst. exists p. split; [exact Hget|reflexivity].
  - rewrite candidate_loop_step in Hloop by exact Ht.
    cbn [map snd count_occ].
    destruct (string_dec (str r0) r) as [Heq|Hne].
    + subst r. rewrite Hget in Hloop.
      destruct (dict_get (rating p) wp10_map); [|discriminate].
      rewrite Hpass in Hloop.
      destruct (sum_probs _ _ _) as [x|] eqn:Ex; [|discriminate].
      destruct (IH _ _ _ _ Hloop (str r0) (set_p_above_target p x))
        as (p' & Hget' & Hsum).
      * apply dict_get_set_same.
      * now rewrite (passes_same_fields _ _ _ _ (same_fields_set p x)).
      * exists p'. split; [exact Hget'|]. cbn [add_sums]. rewrite Ex. exact Hsum.
    + destruct (dict_get (str r0) store) as [p0|] eqn:E0;
        [|exact (IH _ _ _ _ Hloop r p Hget Hpass)].
      destruct (dict_get (rating p0) wp10_map); [|discriminate].
      destruct (passes t d p0); [|exact (IH _ _ _ _ Hloop r p Hget Hpass)].
      destruct (sum_probs _ _ _) as [x|]; [|discriminate].
      apply (IH _ _ _ _ Hloop r p); [|exact Hpass].
      now rewrite dict_get_set_other.
Qed.

Lemma wp10_map_unknown target :
  ~ In target wp10 -> dict_get target wp10_map = None.
Proof.
  intros H. destruct (dict_get target wp10_map) as [idx|] eqn:E; [|reflexivity].
  apply wp10_map_index in E. destruct E as [_ E].
  apply nth_error_In in E. contradiction.
Qed.

Lemma candidate_items_titles cmap store :
  (forall title r, In (title, r) cmap -> dict_get r store <> None) ->
  map fst (candidate_items cmap store) = keys cmap.
Proof.
  unfold candidate_items, items.
  induction cmap as [|[title r] cmap IH]; intros H; [reflexivity|].
  cbn [flat_map keys map fst snd].
  destruct (dict_get r store) as [p|] eqn:E.
  - cbn. f_equal. apply IH. intros title' r' Hin. apply (H title' r'). now right.
  - exfalso. apply (H title r); [now left|exact E].
Qed.

Lemma filter_none {A : Type} (f : A -> bool) (l : list A) :
  (forall a, In a l -> f a = false) -> filter f l = [].
Proof.
  induction l as [|a l IH]; intros H; [reflexivity|].
  cbn. rewrite (H a (or_introl eq_refl)). apply IH. intros b Hb. apply H. now right.
Qed.

(** ** More on one run of [predict] *)

Section RunMore.
Variables (db : database) (ores : ores_service).
Variables (category_name target : string) (distance : Z).
Variables (s : session) (target_idx : Z).
Hypothesis connected : reachable db = true.
Hypothesis fetched : get_predictions ores (requested db category_name) = Returns s.
Hypothesis target_known : dict_get target wp10_map = Some target_idx.

Let art_rev_map : dict Z := resolve_revisions db category_name.

Let run_eq :
  predict db ores category_name target distance
  = candidate_loop target_idx distance art_rev_map (predictions s) [] :=
  predict_eq db ores category_name target distance s target_idx
             connected fetched target_known.

Let idx_range : 0 <= target_idx < 6 :=
  target_idx_range target target_idx target_known.

(** X6: the candidate map lists, in the order of [art_rev_map], the titles
    whose revision has a prediction that passes the filter; each refers to
    a prediction of the store, so [candidates.items()] gives one pair for
    each, and the rows of the report are for these titles, rearranged. *)
Theorem candidates_in_category_order cmap store :
  predict db ores category_name target distance = Returns (CandidateMap cmap store) ->
  keys cmap
  = map fst (filter (selected target_idx distance (predictions s)) art_rev_map)
  /\ (forall title r,
        dict_get title cmap = Some r ->
        exists rev p,
          dict_get title art_rev_map = Some rev /\ r = str rev
          /\ dict_get r store = Some p)
  /\ map fst (candidate_items cmap store) = keys cmap
  /\ Permutation (map fst (sorted_candidates cmap store)) (keys cmap).
Proof.
  intros Hrun. rewrite run_eq in Hrun.
  pose proof (resolve_revisions_keys db category_name) as Hnd.
  pose proof (candidate_loop_keys _ _ _ idx_range Hnd (predictions s) [] cmap store
                (fun _ _ => eq_refl) Hrun) as Hkeys.
  change (keys cmap
          = map fst (filter (selected target_idx distance (predictions s))
                            art_rev_map)) in Hkeys.
  assert (Hrefs : forall title r,
             dict_get title cmap = Some r ->
             exists rev p,
               dict_get title art_rev_map = Some rev /\ r = str rev
               /\ dict_get r store = Some p).
  { intros title r Hget.
    destruct (candidate_loop_map _ _ _ idx_range Hnd _ _ _ _ Hrun title) as [Hout Hin].
    destruct (dict_get title art_rev_map) as [rev|] eqn:Eart.
    - specialize (Hin rev (dict_get_In _ _ _ Eart)).
      rewrite Hget in Hin. cbn [dict_get] in Hin.
      destruct (dict_get (str rev) (predictions s)) as [p|] eqn:Ep; [|discriminate].
      destruct (passes target_idx distance p); [|discriminate].
      inversion Hin; subst r.
      pose proof (candidate_loop_store _ _ _ idx_range _ _ _ _ Hrun (str rev)) as Hst.
      rewrite Ep in Hst. destruct Hst as (p' & Hp' & _).
      exists rev, p'. auto.
    - rewrite Hout in Hget; [discriminate|]. now apply dict_get_None. }
  assert (Hitems : map fst (candidate_items cmap store) = keys cmap).
  { apply candidate_items_titles. intros title r Hin.
    assert (Hnd' : NoDup (keys cmap)).
    { rewrite Hkeys. apply NoDup_keys_filter, Hnd. }
    destruct (Hrefs title r (In_dict_get _ _ _ Hnd' Hin)) as (rev & p & _ & _ & Hp).
    congruence. }
  split; [exact Hkeys|]. split; [exact Hrefs|]. split; [exact Hitems|].
  rewrite <- Hitems. apply Permutation_map. apply sorted_reverse_perm.
Qed.

Let requested_eq :
  requested db category_name = map (fun it => str (snd it)) art_rev_map.
Proof. unfold requested, values. now rewrite map_map. Qed.

Let returns_usable cmap store :
  predict db ores category_name target distance = Returns (CandidateMap cmap store) ->
  all_usable target_idx distance (predictions s) art_rev_map = true.
Proof.
  rewrite run_eq. intros Hrun.
  pose proof (candidate_loop_outcome target_idx distance art_rev_map idx_range
                (predictions s) []) as Hout.
  destruct (all_usable _ _ _ _); [reflexivity|congruence].
Qed.

(** X7: the distance has bounds beyond which it decides alone.  Above the
    index of the target no title is a candidate; at the index of the target
    minus five or below, every title whose revision has a prediction is
    one. *)
Theorem distance_bounds cmap store :
  predict db ores category_name target distance = Returns (CandidateMap cmap store) ->
  (target_idx < distance -> cmap = [])
  /\ (distance <= target_idx - 5 ->
      keys cmap
      = map fst (filter (fun it => has_key (predictions s) (str (snd it)))
                        art_rev_map)).
Proof.
  intros Hrun. pose proof (returns_usable _ _ Hrun) as Huse.
  rewrite run_eq in Hrun.
  pose proof (candidate_loop_keys _ _ _ idx_range
                (resolve_revisions_keys db category_name)
                (predictions s) [] cmap store (fun _ _ => eq_refl) Hrun) as Hkeys.
  change (keys cmap
          = map fst (filter (selected target_idx distance (predictions s))
                            art_rev_map)) in Hkeys.
  split.
  - intros Hlt.
    assert (Hnone : filter (selected target_idx distance (predictions s)) art_rev_map = []).
    { apply filter_none. intros it _.
      unfold selected, passes.
      destruct (dict_get (str (snd it)) (predictions s)) as [p|]; [|reflexivity].
      destruct (dict_get (rating p) wp10_map) as [idx|] eqn:Ei; [|reflexivity].
      apply wp10_map_index in Ei.
      rewrite Z.geb_leb. apply Z.leb_gt. lia. }
    rewrite Hnone in Hkeys. now apply map_eq_nil in Hkeys.
  - intros Hle. rewrite Hkeys. f_equal. apply filter_ext_in. intros it Hin.
    unfold all_usable in Huse. rewrite forallb_forall in Huse. specialize (Huse it Hin).
    unfold selected, has_key, passes.
    destruct (dict_get (str (snd it)) (predictions s)) as [p|]; [|reflexivity].
    unfold usable in Huse.
    destruct (dict_get (rating p) wp10_map) as [idx|] eqn:Ei; [|discriminate].
    apply wp10_map_index in Ei. rewrite Z.geb_leb. apply Z.leb_le. lia.
Qed.

(** X9: [predict] returns a candidate map when, for every title, the
    prediction of its revision, if there is one, has a rating of the scale
    and, if it passes the filter, a probability for every class before the
    target; one prediction that has not makes [predict] raise [KeyError],
    so that no candidate map is returned at all. *)
Theorem predict_raises_exactly :
  ((forall title rev p,
       dict_get title art_rev_map = Some rev ->
       dict_get (str rev) (predictions s) = Some p ->
       usable target_idx distance p = true) ->
   exists cmap store,
     predict db ores category_name target distance = Returns (CandidateMap cmap store))
  /\ (forall title rev p,
        dict_get title art_rev_map = Some rev ->
        dict_get (str rev) (predictions s) = Some p ->
        usable target_idx distance p = false ->
        predict db ores category_name target distance = Raises KeyError).
Proof.
  rewrite run_eq.
  pose proof (candidate_loop_outcome target_idx distance art_rev_map idx_range
                (predictions s) []) as Hout.
  split.
  - intros Hall.
    assert (Huse : all_usable target_idx distance (predictions s) art_rev_map = true).
    { apply forallb_forall. intros [title rev] Hin. cbn [snd].
      destruct (dict_get (str rev) (predictions s)) as [p|] eqn:Ep; [|reflexivity].
      apply (Hall title rev p); [|exact Ep].
      apply In_dict_get; [apply resolve_revisions_keys|exact Hin]. }
    now rewrite Huse in Hout.
  - intros title rev p Hart Hp Hbad.
    destruct (all_usable target_idx distance (predictions s) art_rev_map) eqn:Huse;
      [|exact Hout].
    unfold all_usable in Huse. rewrite forallb_forall in Huse.
    specialize (Huse (title, rev) (dict_get_In _ _ _ Hart)). cbn [snd] in Huse.
    rewrite Hp in Huse. congruence.
Qed.

(** X15: [predict] adds the probabilities before the target to a prediction
    that passes the filter once for every title of [art_rev_map] with its
    revision id: with two titles for one revision the field holds the
    probabilities added twice. *)
Theorem shared_prediction_added_per_title cmap store r pred :
  predict db ores category_name target distance = Returns (CandidateMap cmap store) ->
  dict_get r (predictions s) = Some pred ->
  passes target_idx distance pred = true ->
  exists pred',
    dict_get r store = Some pred'
    /\ add_sums (count_occ string_dec (requested db category_name) r)
                0.0%float (firstn (Z.to_nat target_idx) wp10) (probs pred)
       = Some (p_above_target pred').
Proof.
  intros Hrun Hget Hpass. rewrite run_eq in Hrun.
  destruct (candidate_loop_sums _ _ _ idx_range _ _ _ _ Hrun r pred Hget Hpass)
    as (pred' & Hget' & Hsum).
  exists pred'. split; [exact Hget'|].
  rewrite requested_eq.
  now rewrite <- (get_predictions_fresh _ _ _ _ _ fetched Hget).
Qed.

End RunMore.

(** ** A target that is not of the scale, a category with no members *)

(** X10: for a target that is not, letter for letter, one of the six names
    of [wp10], [predict] raises [KeyError] whenever the database is
    reachable, whatever the category holds, and [main] prints nothing. *)
Theorem unknown_target_raises db ores category_name target distance :
  reachable db = true ->
  ~ In target wp10 ->
  predict db ores category_name target distance = Raises KeyError
  /\ main db ores category_name target distance = Raises KeyError.
Proof.
  intros Hr Ht.
  assert (Hp : predict db ores category_name target distance = Raises KeyError).
  { unfold predict, db_connect. rewrite Hr. cbn [bind negb].
    destruct (get_predictions_returns ores
                (map str (values (resolve_revisions db category_name)))) as [s ->].
    cbn [bind]. now rewrite (wp10_map_unknown _ Ht). }
  split; [exact Hp|]. unfold main. now rewrite Hp.
Qed.

Lemma unknown_target_raises_witness :
  predict scenario_db (scenario_ores scenario_probs_102) "Some category" "stub" 2
  = Raises KeyError
  /\ main scenario_db (scenario_ores scenario_probs_102) "Some category" "stub" 2
     = Raises KeyError.
Proof.
  apply unknown_target_raises; [reflexivity|].
  cbn. intuition discriminate.
Defined.

(** X12: for a category with no members and a target of the scale, no
    request is made to the service and [main] prints the header and the
    closing line. *)
Theorem main_empty_category db ores category_name target distance :
  reachable db = true ->
  member_rows db (replace " " "_" category_name) = [] ->
  In target wp10 ->
  get_predictions ores (requested db category_name) = Returns (mkSession [] 0%nat [])
  /\ main db ores category_name target distance
     = Returns (table_start target ++ table_end).
Proof.
  intros Hr Hrows Ht.
  assert (Hres : resolve_revisions db category_name = []).
  { unfold resolve_revisions. now rewrite Hrows. }
  split.
  - unfold requested. now rewrite Hres.
  - destruct (wp10_map_known _ Ht) as [idx Hidx].
    unfold main, predict, db_connect. rewrite Hr, Hres. cbn [bind negb values map].
    change (get_predictions ores []) with (Returns (mkSession [] 0%nat [])).
    cbn [bind predictions]. rewrite Hidx. reflexivity.
Qed.

Lemma main_empty_category_witness :
  main scenario_db (scenario_ores scenario_probs_102) "Another category" "GA" 2
  = Returns (table_start "GA" ++ table_end).
Proof.
  apply (main_empty_category scenario_db); [reflexivity|reflexivity|].
  cbn. tauto.
Defined.

(** ** The category and its members *)

Lemma replace_idempotent a b title :
  a <> b -> replace a b (replace a b title) = replace a b title.
Proof.
  intros Hne. induction title as [|ch title IH]; [reflexivity|].
  cbn [replace]. rewrite IH. f_equal.
  destruct (Ascii.eqb ch a) eqn:E; [|now rewrite E].
  destruct (Ascii.eqb b a) eqn:E'; [|reflexivity].
  apply Ascii.eqb_eq in E'. congruence.
Qed.

(** X13: spaces and underscores in the name of the category are the same
    to [predict] and [main]: a name and the name with its spaces replaced
    by underscores give the same result. *)
Theorem category_spaces_are_underscores db ores category_name target distance :
  predict db ores (replace " " "_" category_name) target distance
  = predict db ores category_name target distance
  /\ main db ores (replace " " "_" category_name) target distance
     = main db ores category_name target distance.
Proof.
  assert (Hres : resolve_revisions db (replace " " "_" category_name)
                 = resolve_revisions db category_name).
  { unfold resolve_revisions. now rewrite replace_idempotent by discriminate. }
  assert (Hp : predict db ores (replace " " "_" category_name) target distance
               = predict db ores category_name target distance).
  { unfold predict. now rewrite Hres. }
  split; [exact Hp|]. unfold main. now rewrite Hp.
Qed.

(** X14: [art_rev_map], when predictions are asked for, has each member of
    the category once, with the last [page_latest] the database gave for
    its title, and only if that is positive: a title listed twice is one
    entry, and one with no revision, or with revision 0, is none.  So every
    revision id asked for is the decimal of a positive number, never the
    initial -1. *)
Theorem art_rev_map_resolved db category_name :
  NoDup (keys (resolve_revisions db category_name))
  /\ (forall title rev,
        dict_get title (resolve_revisions db category_name) = Some rev
        <-> In title (member_rows db (replace " " "_" category_name))
            /\ rev = last (latest_rows db title) (-1) /\ 0 < rev)
  /\ (forall r, In r (requested db category_name) ->
                exists title rev,
                  r = str rev /\ 0 < rev
                  /\ dict_get title (resolve_revisions db category_name) = Some rev).
Proof.
  split; [apply resolve_revisions_keys|]. split.
  - intros title rev. apply resolve_revisions_get.
  - intros r Hin. unfold requested, values in Hin. rewrite map_map in Hin.
    apply in_map_iff in Hin. destruct Hin as [[title rev] [Hr Hin]]. cbn in Hr.
    exists title, rev.
    assert (Hget : dict_get title (resolve_revisions db category_name) = Some rev).
    { apply In_dict_get; [apply resolve_revisions_keys|exact Hin]. }
    split; [now symmetry|]. split; [|exact Hget].
    now apply resolve_revisions_get in Hget.
Qed.

Lemma fold_left_agree {A B : Type} (f g : A -> B -> A) (l : list B) (a : A) :
  (forall a x, In x l -> f a x = g a x) -> fold_left f l a = fold_left g l a.
Proof.
  revert a. induction l as [|x l IH]; intros a H; [reflexivity|].
  cbn. rewrite (H a x (or_introl eq_refl)). apply IH.
  intros a' x' Hin. apply H. now right.
Qed.

Lemma member_loop_keys_in rows title :
  In title (keys (member_loop rows)) -> In title rows.
Proof.
  intros Hin. unfold member_loop in Hin.
  destruct (dict_get title (fold_left (fun a t => dict_set t (-1) a) rows []))
    as [v|] eqn:E.
  - rewrite member_loop_get in E.
    destruct (in_dec string_dec title rows); [assumption|discriminate].
  - apply dict_get_None in E. contradiction.
Qed.

(** X17: [predict] reads of the database whether it can be reached, the
    members of the one category, and the latest revisions of these members:
    two databases that agree on these give the same result. *)
Theorem predict_reads_category_only db db' ores category_name target distance :
  reachable db = reachable db' ->
  member_rows db (replace " " "_" category_name)
  = member_rows db' (replace " " "_" category_name) ->
  (forall title,
      In title (member_rows db (replace " " "_" category_name)) ->
      latest_rows db title = latest_rows db' title) ->
  predict db ores category_name target distance
  = predict db' ores category_name target distance.
Proof.
  intros Hr Hm Hl.
  assert (Hres : resolve_revisions db category_name = resolve_revisions db' category_name).
  { unfold resolve_revisions. rewrite <- Hm.
    assert (Hloop : latest_loop db (member_loop (member_rows db (replace " " "_" category_name)))
                    = latest_loop db' (member_loop (member_rows db (replace " " "_" category_name)))).
    { unfold latest_loop. apply fold_left_agree. intros m title Hin.
      rewrite (Hl title); [reflexivity|]. now apply member_loop_keys_in. }
    now rewrite Hloop. }
  unfold predict, db_connect. now rewrite Hr, Hres.
Qed.

Lemma predict_reads_category_only_witness :
  predict scenario_db (scenario_ores scenario_probs_102) "Some category" "C" 2
  = predict larger_db (scenario_ores scenario_probs_102) "Some category" "C" 2.
Proof.
  apply predict_reads_category_only; [reflexivity|reflexivity|].
  intros title Hin. cbn in Hin.
  destruct Hin as [<-|[<-|[<-|[]]]]; reflexivity.
Defined.

(** ** The further properties on the scenario *)

Lemma requests_are_batches_witness :
  exists subset, In (Get subset) [Get ["101"; "102"]] /\ In "102" subset.
Proof.
  destruct (requests_are_batches (scenario_ores scenario_probs_102)
              ["101"; "102"] _ eq_refl) as (_ & _ & Hcover).
  exact (Hcover "102" (or_intror (or_introl eq_refl))).
Defined.

Lemma single_batch_answered_witness :
  exists s,
    get_predictions (scenario_ores scenario_probs_102) ["101"; "102"] = Returns s
    /\ requests s = 1%nat
    /\ dict_get "102" (predictions s)
       = Some (Prediction_init "102" "FA" scenario_probs_102)
    /\ dict_get "103" (predictions s) = None.
Proof.
  pose proof (single_batch_answered (scenario_ores scenario_probs_102)
                ["101"; "102"] _ ltac:(cbn; unfold iter_size; lia)
                eq_refl eq_refl eq_refl) as H.
  destruct H as (s & Hs & Hreq & _ & Hget).
  - repeat constructor; cbn; intuition discriminate.
  - exists s. repeat split; auto; rewrite Hget; reflexivity.
Defined.

Lemma failed_batch_keeps_entries_witness :
  exists s,
    get_predictions incomplete_ores ["101"; "102"; "103"] = Returns s
    /\ requests s = 3%nat
    /\ dict_get "101" (predictions s) = Some (Prediction_init "101" "Stub" probs_101)
    /\ dict_get "103" (predictions s) = None.
Proof.
  destruct (failed_batch_keeps_entries incomplete_ores ["101"; "102"; "103"]
              [("101", {| sd_prediction := Some "Stub";
                          sd_probability := Some probs_101 |})]
              ("102", {| sd_prediction := None;
                         sd_probability := Some scenario_probs_102 |})
              [("103", {| sd_prediction := Some "FA";
                          sd_probability := Some scenario_probs_102 |})])
    as (s & Hs & Hreq & _ & Hget).
  - cbn. unfold iter_size. lia.
  - intros n. split; reflexivity.
  - reflexivity.
  - reflexivity.
  - repeat constructor. cbn. tauto.
  - exists s. repeat split; auto; rewrite Hget; reflexivity.
Defined.

Lemma predictions_come_from_responses_witness :
  exists sd,
    sd_prediction sd = Some "FA" /\ sd_probability sd = Some scenario_probs_102.
Proof.
  destruct (predictions_come_from_responses (scenario_ores scenario_probs_102)
              ["101"; "102"] _ "102" _ eq_refl eq_refl)
    as (n & k & m & sd & _ & _ & _ & _ & _ & Hr & Hp & _).
  exists sd. split; [exact Hr|exact Hp].
Defined.

Lemma candidates_in_category_order_witness :
  exists cmap store,
    predict scenario_db (scenario_ores scenario_probs_102) "Some category" "Stub" 0
    = Returns (CandidateMap cmap store)
    /\ keys cmap = ["A"; "B"]
    /\ Permutation (map fst (sorted_candidates cmap store)) ["A"; "B"].
Proof.
  destruct (predict_returns scenario_db (scenario_ores scenario_probs_102)
              "Some category" "Stub" 0 _ 5 eq_refl eq_refl eq_refl eq_refl)
    as (cmap & store & Hrun).
  destruct (candidates_in_category_order scenario_db (scenario_ores scenario_probs_102)
              "Some category" "Stub" 0 _ 5 eq_refl eq_refl eq_refl _ _ Hrun)
    as (Hkeys & _ & _ & Hperm).
  exists cmap, store. split; [exact Hrun|].
  assert (Hk : keys cmap = ["A"; "B"]) by (rewrite Hkeys; reflexivity).
  split; [exact Hk|]. now rewrite <- Hk.
Defined.

Lemma distance_bounds_witness :
  exists store,
    predict scenario_db (scenario_ores scenario_probs_102) "Some category" "C" 4
    = Returns (CandidateMap [] store).
Proof.
  destruct (predict_returns scenario_db (scenario_ores scenario_probs_102)
              "Some category" "C" 4 _ 3 eq_refl eq_refl eq_refl eq_refl)
    as (cmap & store & Hrun).
  destruct (distance_bounds scenario_db (scenario_ores scenario_probs_102)
              "Some category" "C" 4 _ 3 eq_refl eq_refl eq_refl _ _ Hrun)
    as (Hempty & _).
  exists store. rewrite <- (Hempty ltac:(lia)). exact Hrun.
Defined.

Lemma predict_raises_exactly_witness :
  predict scenario_db unrated_ores "Some category" "C" 2 = Raises KeyError.
Proof.
  apply (proj2 (predict_raises_exactly scenario_db unrated_ores
                  "Some category" "C" 2 _ 3 eq_refl eq_refl eq_refl)
           "A" 101 _ eq_refl eq_refl eq_refl).
Defined.

Lemma shared_prediction_added_per_title_witness :
  exists pred',
    p_above_target pred'
    = (0.0 + 0.01 + 0.02 + 0.05 + 0.12 + 0.3 + 0.01 + 0.02 + 0.05 + 0.12 + 0.3)%float.
Proof.
  destruct (predict_returns shared_db (scenario_ores scenario_probs_102)
              "Some category" "Stub" 0 _ 5 eq_refl eq_refl eq_refl eq_refl)
    as (cmap & store & Hrun).
  destruct (shared_prediction_added_per_title shared_db
              (scenario_ores scenario_probs_102)
              "Some category" "Stub" 0 _ 5 eq_refl eq_refl eq_refl
              _ _ "101" _ Hrun eq_refl eq_refl)
    as (pred' & _ & Hsum).
  exists pred'.
  assert (Hs : Some (p_above_target pred')
               = Some (0.0 + 0.01 + 0.02 + 0.05 + 0.12 + 0.3
                       + 0.01 + 0.02 + 0.05 + 0.12 + 0.3)%float)
    by (rewrite <- Hsum; reflexivity).
  now injection Hs.
Defined.

(** ** A service that always answers, a service that never does *)

Section Answering.
Variable ores : ores_service.
Variable langcode : string.
Hypothesis always : forall n subset, answers langcode (ores n subset) = true.

Lemma attempts_answered n subset s :
  trace (attempts ores langcode (S n) subset s) = (trace s ++ [Get subset])%list.
Proof.
  cbn [attempts]. specialize (always (requests s) subset).
  unfold answers in always. apply andb_true_iff in always.
  destruct always as [Hst Hsc]. rewrite Hst.
  rewrite parse_response_scores.
  destruct (scores_of langcode (ores (requests s) subset)) as [m|] eqn:Em;
    [|discriminate].
  assert (Hjson : json (ores (requests s) subset) <> None).
  { intros Hn. unfold scores_of in Em. now rewrite Hn in Em. }
  destruct (json (ores (requests s) subset)); [|congruence].
  pose proof (store_scores_complete m (predictions s) Hsc) as Hnone.
  cbn [predictions]. destruct (store_scores m (predictions s)) as [preds e].
  cbn [snd] in Hnone. subst e. reflexivity.
Qed.

Lemma batches_answered fuel rev_ids k s s' :
  batches ores langcode fuel rev_ids (k * iter_size) s = Returns s' ->
  trace s'
  = (trace s
     ++ map (fun j => Get (batch rev_ids j))
            (seq k ((List.length rev_ids - k * iter_size + 49) / 50)))%list.
Proof.
  revert k s. induction fuel as [|fuel IH]; intros k s; cbn [batches];
    destruct (k * iter_size <? List.length rev_ids)%nat eqn:E; try discriminate;
    intros H.
  - inversion H; subst. apply Nat.ltb_ge in E.
    replace (List.length rev_ids - k * iter_size + 49)%nat with 49%nat by lia.
    cbn. now rewrite app_nil_r.
  - replace (k * iter_size + iter_size)%nat with (S k * iter_size)%nat in H by lia.
    apply IH in H. rewrite H.
    change max_url_attempts with 3%nat. rewrite attempts_answered.
    apply Nat.ltb_lt in E. unfold iter_size in *.
    assert (Hstep : ((List.length rev_ids - k * 50 + 49) / 50
                     = S ((List.length rev_ids - S k * 50 + 49) / 50))%nat).
    { destruct (Nat.le_gt_cases 50 (List.length rev_ids - k * 50)) as [Hbig|Hsmall].
      - replace (List.length rev_ids - k * 50 + 49)%nat
          with (1 * 50 + (List.length rev_ids - S k * 50 + 49))%nat by lia.
        rewrite Nat.div_add_l by lia. reflexivity.
      - replace (List.length rev_ids - S k * 50 + 49)%nat with 49%nat by lia.
        replace (List.length rev_ids - k * 50 + 49)%nat
          with (1 * 50 + (List.length rev_ids - k * 50 - 1))%nat by lia.
        rewrite Nat.div_add_l by lia.
        rewrite (Nat.div_small (List.length rev_ids - k * 50 - 1) 50) by lia.
        reflexivity. }
    rewrite Hstep. cbn [seq map]. rewrite <- app_assoc. reflexivity.
  - inversion H; subst. apply Nat.ltb_ge in E.
    replace (List.length rev_ids - k * iter_size + 49)%nat with 49%nat by lia.
    cbn. now rewrite app_nil_r.
Qed.

End Answering.

(** X18: when the service answers every request with status 200 and scores
    that are all complete, [get_predictions] asks for each batch once, in
    the order of the list, and never waits. *)
Theorem answered_batches_in_order ores rev_ids s :
  (forall n subset, answers (lang ++ "wiki") (ores n subset) = true) ->
  get_predictions ores rev_ids = Returns s ->
  trace s = map (fun k => Get (batch rev_ids k)) (seq 0 (n_batches rev_ids))
  /\ requests s = n_batches rev_ids
  /\ sleeps s = 0%nat.
Proof.
  intros Hans Hs.
  pose proof (batches_counts ores _ _ rev_ids 0 _ _ Hs) as Hc.
  apply (batches_answered ores _ Hans _ rev_ids 0) in Hs.
  cbn [trace app Nat.mul] in Hs. rewrite Nat.sub_0_r in Hs.
  assert (Htr : trace s
                = map (fun k => Get (batch rev_ids k)) (seq 0 (n_batches rev_ids))).
  { exact Hs. }
  destruct Hc as (g & sl & Hr & Hg & Hsl & _).
  assert (Hgets : gets s = n_batches rev_ids).
  { unfold gets. rewrite Htr.
    assert (Hlen : forall l,
               List.length (filter is_get (map (fun k => Get (batch rev_ids k)) l))
               = List.length l).
    { induction l as [|k l IH]; [reflexivity|].
      cbn [map filter is_get List.length]. now rewrite IH. }
    now rewrite Hlen, length_seq. }
  assert (Hsleeps : sleeps s = 0%nat).
  { unfold sleeps. rewrite Htr. clear.
    induction (seq 0 (n_batches rev_ids)) as [|k l IH]; [reflexivity|].
    cbn [map filter is_sleep]. exact IH. }
  split; [exact Htr|]. split; [|exact Hsleeps].
  unfold gets in Hg, Hgets. cbn [trace filter List.length requests] in Hg, Hr. lia.
Qed.

Lemma answered_batches_in_order_witness :
  exists s,
    get_predictions (scenario_ores scenario_probs_102) ["101"; "102"] = Returns s
    /\ trace s = [Get ["101"; "102"]].
Proof.
  destruct (get_predictions_returns (scenario_ores scenario_probs_102) ["101"; "102"])
    as [s Hs].
  destruct (answered_batches_in_order (scenario_ores scenario_probs_102)
              ["101"; "102"] s (fun _ _ => eq_refl) Hs) as (Htr & _).
  exists s. split; [exact Hs|]. rewrite Htr. reflexivity.
Defined.

Lemma candidate_loop_no_predictions t d pairs cmap :
  candidate_loop t d pairs [] cmap = Returns (CandidateMap cmap []).
Proof.
  induction pairs as [|[t0 r0] pairs IH]; [reflexivity|]. cbn [candidate_loop dict_get].
  exact IH.
Qed.

(** X19: when every attempt fails (no status 200, or a body that does not
    decode, or one without the keys down to the scores), [predict] still
    returns: the candidate map is empty, and for a target of the scale
    [main] prints the header and the closing line. *)
Theorem failing_service_gives_empty_report db ores category_name target distance :
  reachable db = true ->
  In target wp10 ->
  (forall n subset, attempt_failed (lang ++ "wiki") (ores n subset) = true) ->
  predict db ores category_name target distance = Returns (CandidateMap [] [])
  /\ main db ores category_name target distance
     = Returns (table_start target ++ table_end).
Proof.
  intros Hr Ht Hfail.
  assert (Hp : predict db ores category_name target distance
               = Returns (CandidateMap [] [])).
  { unfold predict, db_connect. rewrite Hr. cbn [bind negb].
    destruct (get_predictions_returns ores
                (map str (values (resolve_revisions db category_name)))) as [s Hs].
    rewrite Hs. cbn [bind].
    assert (Hnone : predictions s = []).
    { unfold get_predictions in Hs.
      apply (batches_invariant ores _ (fun s => predictions s = [])) in Hs; auto.
      intros n subset s0 H0. rewrite attempts_failed_store_nothing; auto. }
    rewrite Hnone. destruct (wp10_map_known _ Ht) as [idx ->]. cbn [getitem bind].
    apply candidate_loop_no_predictions. }
  split; [exact Hp|]. unfold main. rewrite Hp. reflexivity.
Qed.

Lemma failing_service_gives_empty_report_witness :
  main scenario_db (failing_ores 503) "Some category" "C" 2
  = Returns (table_start "C" ++ table_end).
Proof.
  apply (failing_service_gives_empty_report scenario_db (failing_ores 503)
           "Some category" "C" 2); [reflexivity| |reflexivity].
  cbn. tauto.
Defined.
